(** * agents_demo.py: JSON extraction, stage schemas and the final repair step

    A shallow embedding of [src/agents_demo.py] (functions [extract_json],
    [word_count], the pydantic models [PlannerOut], [ReviewerOut], [PublishOut]
    and the Finalizer/repair part of [run_pipeline]).

    Python strings are modelled as [list ascii], where an [ascii] value is read
    as the Unicode code point U+0000..U+00FF (Latin-1).  Character classes
    ([\w], [str.isspace], [str.lower]) are the exact Python 3 ones on that
    range.  Code points above U+00FF are outside the modelled alphabet. *)

From Stdlib Require Import Ascii String List Bool Arith Lia ZArith.
From Stdlib Require DecimalFacts DecimalN.
Import ListNotations.
Open Scope list_scope.
Set Warnings "-register-all".

(** ** Characters *)

Definition pystr := list ascii.

(** String literals of the source, as Latin-1 code point lists. *)
Definition lit (s : string) : pystr := list_ascii_of_string s.

(** Literals holding double quotes, written with [^] in their place. *)
Definition litq (s : string) : pystr :=
  map (fun c => if Ascii.eqb c "^"%char then ascii_of_nat 34 else c) (lit s).

Definition code (c : ascii) : nat := nat_of_ascii c.

Definition chr (n : nat) : ascii := ascii_of_nat n.

Definition in_range (lo hi : nat) (c : ascii) : bool :=
  (lo <=? code c) && (code c <=? hi).

(** Python's [str.isalnum] on U+0000..U+00FF: ASCII letters and digits,
    the superscripts ² ³ ¹, the fractions ¼ ½ ¾ (numeric), ª µ º and the
    Latin-1 letters (U+00C0..U+00FF except × and ÷). *)
Definition py_isalnum (c : ascii) : bool :=
  in_range 48 57 c || in_range 65 90 c || in_range 97 122 c
  || (code c =? 170) || (code c =? 178) || (code c =? 179) || (code c =? 181)
  || (code c =? 185) || (code c =? 186) || in_range 188 190 c
  || (in_range 192 255 c && negb (code c =? 215) && negb (code c =? 247)).

(** [\w] of Python's [re] on [str] patterns: alphanumerics and underscore. *)
Definition is_word (c : ascii) : bool := py_isalnum c || (code c =? 95).

(** The character class [[\w'-]]. *)
Definition in_cls (c : ascii) : bool :=
  is_word c || (code c =? 39) || (code c =? 45).

(** [str.isspace] on U+0000..U+00FF: \t \n \v \f \r, the separators
    U+001C..U+001F, space, U+0085 and U+00A0. *)
Definition py_isspace (c : ascii) : bool :=
  in_range 9 13 c || in_range 28 32 c || (code c =? 133) || (code c =? 160).

(** [str.lower] on U+0000..U+00FF. *)
Definition lower_char (c : ascii) : ascii :=
  if in_range 65 90 c || (in_range 192 222 c && negb (code c =? 215))
  then chr (code c + 32) else c.

Definition py_lower (s : pystr) : pystr := map lower_char s.

Fixpoint lstrip_with (p : ascii -> bool) (s : pystr) : pystr :=
  match s with
  | [] => []
  | c :: r => if p c then lstrip_with p r else s
  end.

Definition rstrip_with (p : ascii -> bool) (s : pystr) : pystr :=
  rev (lstrip_with p (rev s)).

(** [str.strip()]. *)
Definition py_strip (s : pystr) : pystr :=
  rstrip_with py_isspace (lstrip_with py_isspace s).

(** [" ".join(xs)]. *)
Fixpoint join_sp (xs : list pystr) : pystr :=
  match xs with
  | [] => []
  | [x] => x
  | x :: xs' => x ++ [" "%char] ++ join_sp xs'
  end.

Definition str_eqb (a b : pystr) : bool :=
  if list_eq_dec ascii_dec a b then true else false.

Definition mem_str (x : pystr) (l : list pystr) : bool := existsb (str_eqb x) l.

(** ** [re.findall(r"\b[\w'-]+\b", s)] *)

Definition isw_opt (o : option ascii) : bool :=
  match o with Some c => is_word c | None => false end.

(** [\b] between the characters [prev] and [next] (None: string edge). *)
Definition bnd (prev next : option ascii) : bool :=
  xorb (isw_opt prev) (isw_opt next).

Fixpoint take_cls (s : pystr) : pystr :=
  match s with
  | c :: r => if in_cls c then c :: take_cls r else []
  | [] => []
  end.

(** Backtracking of the greedy [[\w'-]+]: walking the greedy run [R] (whose
    first character [p] is already consumed, at end offset [pos]), remember
    the last end offset at which [\b] holds; [after] is the character that
    follows the run.  The result is the largest end offset with [\b], which
    is what the backtracking engine tries first. *)
Fixpoint last_bnd (pos : nat) (p : ascii) (R : pystr) (after : option ascii)
    (best : option nat) : option nat :=
  match R with
  | [] => if bnd (Some p) after then Some pos else best
  | c :: R' => last_bnd (S pos) c R' after
                 (if bnd (Some p) (Some c) then Some pos else best)
  end.

(** One attempt of the pattern at a position: [prev] is the character
    before it, [s] the rest of the string; the result is the match length. *)
Definition match_at (prev : option ascii) (s : pystr) : option nat :=
  if bnd prev (hd_error s) then
    let R := take_cls s in
    match R with
    | [] => None
    | c :: R' => last_bnd 1 c R' (nth_error s (length R)) None
    end
  else None.

(** The left-to-right scan of [findall]: [skip] counts the characters still
    covered by the previous match. *)
Fixpoint findall_from (prev : option ascii) (skip : nat) (s : pystr)
    : list pystr :=
  match s with
  | [] => []
  | c :: r =>
      match skip with
      | S k => findall_from (Some c) k r
      | O =>
          match match_at prev s with
          | Some j => firstn j s :: findall_from (Some c) (j - 1) r
          | None => findall_from (Some c) 0 r
          end
      end
  end.

Definition word_tokens (s : pystr) : list pystr := findall_from None 0 s.

(** [word_count(s)]. *)
Definition word_count (s : pystr) : nat := length (word_tokens s).

Example word_tokens_ex1 :
  word_tokens (lit "it's a well-known -fact- 'x' __ a_b") =
  [lit "it's"; lit "a"; lit "well-known"; lit "fact"; lit "x"; lit "__"; lit "a_b"].
Proof. reflexivity. Qed.

(** ** JSON values, as [json.loads] builds them *)

(** Numbers with a fraction or an exponent, and the constants [NaN],
    [Infinity], [-Infinity], become Python floats; [JFloat] keeps their
    JSON lexeme. *)
Inductive jvalue : Type :=
| JNull
| JBool (b : bool)
| JInt (z : Z)
| JFloat (lexeme : pystr)
| JStr (s : pystr)
| JArr (l : list jvalue)
| JObj (kvs : list (pystr * jvalue)).

(** [d[k] = v] on a dict: an existing key keeps its place. *)
Fixpoint dict_set (d : list (pystr * jvalue)) (k : pystr) (v : jvalue)
    : list (pystr * jvalue) :=
  match d with
  | [] => [(k, v)]
  | (k', v') :: d' =>
      if str_eqb k k' then (k', v) :: d' else (k', v') :: dict_set d' k v
  end.

(** [d.get(k)]. *)
Fixpoint dict_get (d : list (pystr * jvalue)) (k : pystr) : option jvalue :=
  match d with
  | [] => None
  | (k', v') :: d' => if str_eqb k k' then Some v' else dict_get d' k
  end.

(** ** [json.loads] (the C scanner of CPython's [_json] module) *)

Definition ceq (c : ascii) (n : nat) : bool := code c =? n.

(** JSON whitespace of the scanner: space, \t, \n, \r. *)
Definition is_json_ws (c : ascii) : bool :=
  ceq c 32 || ceq c 9 || ceq c 10 || ceq c 13.

Fixpoint skip_ws (s : pystr) : pystr :=
  match s with
  | c :: r => if is_json_ws c then skip_ws r else s
  | [] => []
  end.

Definition is_digit (c : ascii) : bool := in_range 48 57 c.

Fixpoint span_digits (s : pystr) : pystr * pystr :=
  match s with
  | c :: r =>
      if is_digit c then let '(ds, r') := span_digits r in (c :: ds, r')
      else ([], s)
  | [] => ([], [])
  end.

Definition hex_val (c : ascii) : option nat :=
  if in_range 48 57 c then Some (code c - 48)
  else if in_range 97 102 c then Some (code c - 87)
  else if in_range 65 70 c then Some (code c - 55)
  else None.

(** The one-character escapes: backslash followed by a double quote, a
    backslash, a slash, b, f, n, r or t. *)
Definition unescape (e : ascii) : option ascii :=
  if ceq e 34 then Some e else if ceq e 92 then Some e
  else if ceq e 47 then Some e else if ceq e 98 then Some (chr 8)
  else if ceq e 102 then Some (chr 12) else if ceq e 110 then Some (chr 10)
  else if ceq e 114 then Some (chr 13) else if ceq e 116 then Some (chr 9)
  else None.

(** [scanstring] in strict mode, from just after the opening quote.  A
    [\uXXXX] escape above U+00FF (and so every surrogate pair) denotes a
    code point outside the modelled alphabet and is refused. *)
Fixpoint pstring (s : pystr) : option (pystr * pystr) :=
  match s with
  | [] => None
  | c :: r =>
      if ceq c 34 then Some ([], r)
      else if ceq c 92 then
        match r with
        | [] => None
        | e :: r' =>
            if ceq e 117 then
              match r' with
              | h1 :: h2 :: h3 :: h4 :: r'' =>
                  match hex_val h1, hex_val h2, hex_val h3, hex_val h4 with
                  | Some a, Some b, Some c', Some d =>
                      let n := ((a * 16 + b) * 16 + c') * 16 + d in
                      if n <? 256 then
                        match pstring r'' with
                        | Some (x, rest) => Some (chr n :: x, rest)
                        | None => None
                        end
                      else None
                  | _, _, _, _ => None
                  end
              | _ => None
              end
            else
              match unescape e with
              | Some u =>
                  match pstring r' with
                  | Some (x, rest) => Some (u :: x, rest)
                  | None => None
                  end
              | None => None
              end
        end
      else if code c <? 32 then None
      else
        match pstring r with
        | Some (x, rest) => Some (c :: x, rest)
        | None => None
        end
  end.

(** Decimal digits, through the Standard Library's [Decimal.uint]. *)
Fixpoint chars_uint (ds : pystr) : Decimal.uint :=
  match ds with
  | [] => Decimal.Nil
  | c :: r =>
      let u := chars_uint r in
      match code c - 48 with
      | 0 => Decimal.D0 u | 1 => Decimal.D1 u | 2 => Decimal.D2 u
      | 3 => Decimal.D3 u | 4 => Decimal.D4 u | 5 => Decimal.D5 u
      | 6 => Decimal.D6 u | 7 => Decimal.D7 u | 8 => Decimal.D8 u
      | _ => Decimal.D9 u
      end
  end.

Fixpoint uint_chars (u : Decimal.uint) : pystr :=
  match u with
  | Decimal.Nil => []
  | Decimal.D0 u => chr 48 :: uint_chars u | Decimal.D1 u => chr 49 :: uint_chars u
  | Decimal.D2 u => chr 50 :: uint_chars u | Decimal.D3 u => chr 51 :: uint_chars u
  | Decimal.D4 u => chr 52 :: uint_chars u | Decimal.D5 u => chr 53 :: uint_chars u
  | Decimal.D6 u => chr 54 :: uint_chars u | Decimal.D7 u => chr 55 :: uint_chars u
  | Decimal.D8 u => chr 56 :: uint_chars u | Decimal.D9 u => chr 57 :: uint_chars u
  end.

(** [_match_number_unicode]: optional minus, an integer part without
    leading zero, then a fraction ['.' digits] and an exponent
    [[eE][+-]?digits], each only when complete. *)
Definition pnumber (s : pystr) : option (jvalue * pystr) :=
  let '(neg, s1) :=
    match s with
    | c :: r => if ceq c 45 then (true, r) else (false, s)
    | [] => (false, s)
    end in
  let ip :=
    match s1 with
    | c :: r =>
        if in_range 49 57 c then let '(ds, r') := span_digits r in Some (c :: ds, r')
        else if ceq c 48 then Some ([c], r)
        else None
    | [] => None
    end in
  match ip with
  | None => None
  | Some (ids, r1) =>
      let '(is_frac, r2) :=
        match r1 with
        | dot :: d :: r => if ceq dot 46 && is_digit d
                           then (true, snd (span_digits r)) else (false, r1)
        | _ => (false, r1)
        end in
      let '(is_exp, r3) :=
        match r2 with
        | e :: r =>
            if ceq e 101 || ceq e 69 then
              let r' := match r with
                        | x :: r'' => if ceq x 45 || ceq x 43 then r'' else r
                        | [] => r
                        end in
              let '(eds, r'') := span_digits r' in
              match eds with [] => (false, r2) | _ => (true, r'') end
            else (false, r2)
        | [] => (false, r2)
        end in
      if is_frac || is_exp then
        Some (JFloat (firstn (length s - length r3) s), r3)
      else
        let n := Z.of_N (N.of_uint (chars_uint ids)) in
        Some (JInt (if neg then Z.opp n else n), r3)
  end.

Fixpoint prefixb (p s : pystr) : bool :=
  match p, s with
  | [], _ => true
  | a :: p', b :: s' => Ascii.eqb a b && prefixb p' s'
  | _ :: _, [] => false
  end.

(** [scan_once_unicode], with [_parse_object_unicode] and
    [_parse_array_unicode]; [n] bounds the nesting of calls (every call
    consumes at least one character, so the length of the input plus one
    always suffices). *)
Fixpoint pvalue (n : nat) (s : pystr) {struct n} : option (jvalue * pystr) :=
  match n with
  | O => None
  | S n' =>
      match s with
      | [] => None
      | c :: r =>
          if ceq c 34 then
            match pstring r with
            | Some (x, r') => Some (JStr x, r')
            | None => None
            end
          else if ceq c 123 then
            match skip_ws r with
            | c1 :: r1 => if ceq c1 125 then Some (JObj [], r1)
                          else pmembers n' [] (c1 :: r1)
            | [] => None
            end
          else if ceq c 91 then
            match skip_ws r with
            | c1 :: r1 => if ceq c1 93 then Some (JArr [], r1)
                          else pelems n' [] (c1 :: r1)
            | [] => None
            end
          else if prefixb (lit "null") s then Some (JNull, skipn 4 s)
          else if prefixb (lit "true") s then Some (JBool true, skipn 4 s)
          else if prefixb (lit "false") s then Some (JBool false, skipn 5 s)
          else if prefixb (lit "NaN") s then Some (JFloat (lit "NaN"), skipn 3 s)
          else if prefixb (lit "Infinity") s then Some (JFloat (lit "Infinity"), skipn 8 s)
          else if prefixb (lit "-Infinity") s then Some (JFloat (lit "-Infinity"), skipn 9 s)
          else pnumber s
      end
  end
with pmembers (n : nat) (acc : list (pystr * jvalue)) (s : pystr) {struct n}
    : option (jvalue * pystr) :=
  match n with
  | O => None
  | S n' =>
      match s with
      | c :: r =>
          if ceq c 34 then
            match pstring r with
            | None => None
            | Some (k, r1) =>
                match skip_ws r1 with
                | c2 :: r2 =>
                    if ceq c2 58 then
                      match pvalue n' (skip_ws r2) with
                      | None => None
                      | Some (v, r3) =>
                          let acc' := dict_set acc k v in
                          match skip_ws r3 with
                          | c4 :: r4 =>
                              if ceq c4 125 then Some (JObj acc', r4)
                              else if ceq c4 44 then pmembers n' acc' (skip_ws r4)
                              else None
                          | [] => None
                          end
                      end
                    else None
                | [] => None
                end
            end
          else None
      | [] => None
      end
  end
with pelems (n : nat) (acc : list jvalue) (s : pystr) {struct n}
    : option (jvalue * pystr) :=
  match n with
  | O => None
  | S n' =>
      match pvalue n' s with
      | None => None
      | Some (v, r1) =>
          match skip_ws r1 with
          | c :: r2 =>
              if ceq c 93 then Some (JArr (acc ++ [v]), r2)
              else if ceq c 44 then pelems n' (acc ++ [v]) (skip_ws r2)
              else None
          | [] => None
          end
      end
  end.

(** [json.loads(s)]: leading whitespace, one value, trailing whitespace,
    end of input ("Extra data" otherwise). *)
Definition loads (s : pystr) : option jvalue :=
  match pvalue (S (length s)) (skip_ws s) with
  | Some (v, r) => match skip_ws r with [] => Some v | _ => None end
  | None => None
  end.

Example loads_ex1 :
  loads (litq " {^a^: [1, -20, true, null], ^b^: {}, ^a^: ^x\ty^} ") =
  Some (JObj [(lit "a", JStr [("x")%char; chr 9; ("y")%char]); (lit "b", JObj [])]).
Proof. reflexivity. Qed.

(** ** [json.dumps(obj, ensure_ascii=False)] *)

Definition hexdig (n : nat) : ascii :=
  if n <? 10 then chr (48 + n) else chr (87 + n).

(** [ESCAPE_DCT]: backslash, double quote and the control characters. *)
Definition esc_out (c : ascii) : pystr :=
  if ceq c 92 then [chr 92; chr 92]
  else if ceq c 34 then [chr 92; chr 34]
  else if ceq c 8 then [chr 92; chr 98]
  else if ceq c 12 then [chr 92; chr 102]
  else if ceq c 10 then [chr 92; chr 110]
  else if ceq c 13 then [chr 92; chr 114]
  else if ceq c 9 then [chr 92; chr 116]
  else if code c <? 32 then
    [chr 92; chr 117; chr 48; chr 48; hexdig (code c / 16); hexdig (code c mod 16)]
  else [c].

Definition quote (s : pystr) : pystr := chr 34 :: flat_map esc_out s ++ [chr 34].

Fixpoint join_with (sep : pystr) (xs : list pystr) : pystr :=
  match xs with
  | [] => []
  | [x] => x
  | x :: xs' => x ++ sep ++ join_with sep xs'
  end.

(** [str(int)]. *)
Definition int_str (z : Z) : pystr :=
  if (z <? 0)%Z then chr 45 :: uint_chars (N.to_uint (Z.to_N (Z.opp z)))
  else uint_chars (N.to_uint (Z.to_N z)).

(** Default separators [", "] and [": "].  A float is written as its JSON
    lexeme here (CPython writes [float.__repr__]). *)
Fixpoint dumps (v : jvalue) : pystr :=
  match v with
  | JNull => lit "null"
  | JBool b => if b then lit "true" else lit "false"
  | JInt z => int_str z
  | JFloat lex => lex
  | JStr s => quote s
  | JArr l => chr 91 :: join_with (lit ", ") (map dumps l) ++ [chr 93]
  | JObj kvs =>
      chr 123 :: join_with (lit ", ")
        (map (fun kv => match kv with (k, x) => quote k ++ lit ": " ++ dumps x end) kvs)
      ++ [chr 125]
  end.

(** ** [extract_json] *)

Definition is_bt (c : ascii) : bool := ceq c 96.

(** The rest of [s] after its first three consecutive backticks. *)
Fixpoint after_fence (s : pystr) : option pystr :=
  match s with
  | a :: t =>
      match t with
      | b :: c :: r => if is_bt a && is_bt b && is_bt c then Some r else after_fence t
      | _ => None
      end
  | [] => None
  end.

(** [re.sub(r"```.*?```", '', s, flags=re.DOTALL)]: each fenced block is
    removed; [n] bounds the number of
    positions tried (the length of [s] suffices). *)
Fixpoint strip_fences_n (n : nat) (s : pystr) : pystr :=
  match n with
  | O => s
  | S n' =>
      match s with
      | a :: ((b :: c :: r) as t) =>
          if is_bt a && is_bt b && is_bt c then
            match after_fence r with
            | Some r' => strip_fences_n n' r'
            | None => a :: strip_fences_n n' t
            end
          else a :: strip_fences_n n' t
      | _ => s
      end
  end.

Definition strip_fences (s : pystr) : pystr := strip_fences_n (length s) s.

(** [text[a:b]]. *)
Definition slice (text : pystr) (a b : nat) : pystr := firstn (b - a) (skipn a text).

(** The brace-depth scan of step 3: [i] is the index of the head of [rest]
    in [text]. *)
Fixpoint scan (text : pystr) (i : nat) (rest : pystr) (depth : nat)
    (start : option nat) : list pystr :=
  match rest with
  | [] => []
  | ch :: rest' =>
      if ceq ch 123 then
        scan text (S i) rest' (S depth) (if depth =? 0 then Some i else start)
      else if ceq ch 125 then
        match depth with
        | O => scan text (S i) rest' 0 start
        | S d =>
            match d, start with
            | O, Some st => slice text st (S i) :: scan text (S i) rest' 0 start
            | _, _ => scan text (S i) rest' d start
            end
        end
      else scan text (S i) rest' depth start
  end.

Definition candidates (text : pystr) : list pystr := scan text 0 text 0 None.

Fixpoint first_loads (cs : list pystr) : option jvalue :=
  match cs with
  | [] => None
  | c :: cs' => match loads c with Some v => Some v | None => first_loads cs' end
  end.

(** The outcome of [extract_json]: a value, or the [ValueError] "No JSON
    object found in model output." (the spec's [NoJsonFoundError]). *)
Inductive extract_result : Type :=
| Extracted (v : jvalue)
| NoJsonFound.

Definition extract_json (text : pystr) : extract_result :=
  let t := strip_fences text in
  match loads (py_strip t) with
  | Some v => Extracted v
  | None =>
      match first_loads (candidates t) with
      | Some v => Extracted v
      | None => NoJsonFound
      end
  end.

Example extract_ex1 :
  extract_json (litq "Sure! ```json {^x^: 1}``` Here: {^tags^: [^a^]} and {^b^: 2}")
  = Extracted (JObj [(lit "tags", JArr [JStr (lit "a")])]).
Proof. reflexivity. Qed.

(** ** Schemas (pydantic models) *)

Inductive py_error : Type :=
| ValidationError
| AttributeError.

Inductive outcome (A : Type) : Type :=
| Done (a : A)
| Raised (e : py_error).
Arguments Done {A} a.
Arguments Raised {A} e.

Record planner := mk_planner { proposed_tags : list pystr; draft_summary : pystr }.
Record reviewer := mk_reviewer { approved_tags : list pystr; edited_summary : pystr }.
Record publish := mk_publish { tags : list pystr; summary : pystr }.

Definition is_nil {A : Type} (l : list A) : bool :=
  match l with [] => true | _ => false end.

(** The field type [List[str]] on a JSON value. *)
Fixpoint as_str_list (l : list jvalue) : option (list pystr) :=
  match l with
  | [] => Some []
  | JStr s :: l' => match as_str_list l' with Some r => Some (s :: r) | None => None end
  | _ :: _ => None
  end.

Definition list_str_field (v : jvalue) : option (list pystr) :=
  match v with JArr l => as_str_list l | _ => None end.

(** The field type [str]. *)
Definition str_field (v : jvalue) : option pystr :=
  match v with JStr s => Some s | _ => None end.

(** [isinstance(x, str) and x.strip()]. *)
Definition nonblank (x : pystr) : bool := negb (is_nil (py_strip x)) .

(** [PlannerOut(proposed_tags=..., draft_summary=...)]. *)
Definition planner_new (t s : jvalue) : outcome planner :=
  match list_str_field t, str_field s with
  | Some l, Some x =>
      if negb (is_nil l) && forallb nonblank l
      then Done (mk_planner l x) else Raised ValidationError
  | _, _ => Raised ValidationError
  end.

(** [ReviewerOut(approved_tags=..., edited_summary=...)]. *)
Definition reviewer_new (t s : jvalue) : outcome reviewer :=
  match list_str_field t, str_field s with
  | Some l, Some x =>
      if (length l =? 3) && forallb nonblank l
      then Done (mk_reviewer l x) else Raised ValidationError
  | _, _ => Raised ValidationError
  end.

(** [PublishOut(tags=..., summary=...)]. *)
Definition publish_new (t s : jvalue) : outcome publish :=
  match list_str_field t, str_field s with
  | Some l, Some x =>
      if (length l =? 3) && forallb nonblank l && (word_count x <=? 25)
      then Done (mk_publish l x) else Raised ValidationError
  | _, _ => Raised ValidationError
  end.

(** A reviewer result as [ReviewerOut] accepts it. *)
Definition reviewer_ok (r : reviewer) : bool :=
  (length (approved_tags r) =? 3) && forallb nonblank (approved_tags r).

(** [publish.model_dump()]. *)
Definition publish_dump (p : publish) : jvalue :=
  JObj [(lit "tags", JArr (map JStr (tags p))); (lit "summary", JStr (summary p))].

(** [planner.model_dump()] and [reviewer.model_dump()], embedded in the
    prompts of the later stages. *)
Definition planner_dump (p : planner) : jvalue :=
  JObj [(lit "proposed_tags", JArr (map JStr (proposed_tags p)));
        (lit "draft_summary", JStr (draft_summary p))].

Definition reviewer_dump (r : reviewer) : jvalue :=
  JObj [(lit "approved_tags", JArr (map JStr (approved_tags r)));
        (lit "edited_summary", JStr (edited_summary r))].

(** ** The Finalizer stage and the repair step of [run_pipeline] *)

(** Python truthiness of a parsed JSON value (a float is false when all the
    digits of its mantissa are zero). *)
Fixpoint mantissa (lex : pystr) : pystr :=
  match lex with
  | c :: r => if ceq c 101 || ceq c 69 then [] else c :: mantissa r
  | [] => []
  end.

Definition truthy (v : jvalue) : bool :=
  match v with
  | JNull => false
  | JBool b => b
  | JInt z => negb (z =? 0)%Z
  | JFloat lex => negb (forallb (fun c => ceq c 48 || ceq c 45 || ceq c 46) (mantissa lex))
  | JStr s => negb (is_nil s)
  | JArr l => negb (is_nil l)
  | JObj d => negb (is_nil d)
  end.

(** The characters of [.rstrip(" ,;:â€”-")]: the source literal holds
    space , ; : U+00E2 U+20AC U+201D and -; the two code points above
    U+00FF are outside the modelled alphabet. *)
Definition trail_strip_char (c : ascii) : bool :=
  ceq c 32 || ceq c 44 || ceq c 59 || ceq c 58 || ceq c 226 || ceq c 45.

Section Repair.

(** Python's [str()] on a parsed value that is not a string. *)
Variable str_other : jvalue -> pystr.

(** [str(x)]: the identity on strings. *)
Definition str_of (v : jvalue) : pystr :=
  match v with JStr s => s | _ => str_other v end.

(** [tags = final_json.get("tags") or reviewer.approved_tags], then
    [if not isinstance(tags, list): tags = [str(tags)]]. *)
Definition tags_candidates (rev : reviewer) (d : list (pystr * jvalue)) : list jvalue :=
  let got := match dict_get d (lit "tags") with Some v => v | None => JNull end in
  let t := if truthy got then got else JArr (map JStr (approved_tags rev)) in
  match t with
  | JArr l => l
  | v => [JStr (str_of v)]
  end.

(** The de-duplication loop: [t = str(t).strip()], kept when non-empty and
    its [lower()] is not yet in [seen]. *)
Fixpoint dedup (l : list jvalue) (seen uniq : list pystr) : list pystr * list pystr :=
  match l with
  | [] => (seen, uniq)
  | t :: l' =>
      let t' := py_strip (str_of t) in
      if negb (is_nil t') && negb (mem_str (py_lower t') seen)
      then dedup l' (py_lower t' :: seen) (uniq ++ [t'])
      else dedup l' seen uniq
  end.

(** The top-up loop over the reviewer's tags, with its [break]. *)
Fixpoint topup (l : list pystr) (seen uniq : list pystr) : list pystr * list pystr :=
  match l with
  | [] => (seen, uniq)
  | t :: l' =>
      let '(seen', uniq') :=
        if negb (mem_str (py_lower t) seen)
        then (py_lower t :: seen, uniq ++ [t]) else (seen, uniq) in
      if length uniq' =? 3 then (seen', uniq') else topup l' seen' uniq'
  end.

(** [str(final_json.get("summary") or reviewer.edited_summary).strip()]. *)
Definition summary_source (rev : reviewer) (d : list (pystr * jvalue)) : pystr :=
  let got := match dict_get d (lit "summary") with Some v => v | None => JNull end in
  py_strip (str_of (if truthy got then got else JStr (edited_summary rev))).

(** The repaired tags [uniq[:3]]. *)
Definition repaired_tags (rev : reviewer) (d : list (pystr * jvalue)) : list pystr :=
  let '(seen, uniq) := dedup (tags_candidates rev d) [] [] in
  let '(_, uniq') :=
    if length uniq <? 3 then topup (approved_tags rev) seen uniq else (seen, uniq) in
  firstn 3 uniq'.

(** The hard limit of the summary to 25 tokens. *)
Definition truncate_summary (s : pystr) : pystr :=
  let tokens := word_tokens s in
  if 25 <? length tokens
  then rstrip_with trail_strip_char (join_sp (firstn 25 tokens))
  else s.

(** Lines 269-305 of [run_pipeline], on the dict [final_json]. *)
Definition repair (rev : reviewer) (d : list (pystr * jvalue)) : outcome publish :=
  let tg := repaired_tags rev d in
  let sm := truncate_summary (summary_source rev d) in
  match publish_new (JArr (map JStr tg)) (JStr sm) with
  | Done p => Done p
  | Raised ValidationError =>
      let ftags := if negb (is_nil (approved_tags rev))
                   then firstn 3 (approved_tags rev) else firstn 3 tg in
      let fsum := if word_count (edited_summary rev) <=? 25
                  then edited_summary rev
                  else join_sp (firstn 25 (word_tokens sm)) in
      publish_new (JArr (map JStr ftags)) (JStr fsum)
  | Raised e => Raised e
  end.

(** Lines 262-305: extraction with the reviewer fallback, then the repair;
    [final_json.get] on a value that is not a dict raises [AttributeError]. *)
Definition finalize (rev : reviewer) (final_raw : pystr) : outcome publish :=
  let final_json :=
    match extract_json final_raw with
    | Extracted v => v
    | NoJsonFound =>
        JObj [(lit "tags", JArr (map JStr (approved_tags rev)));
              (lit "summary", JStr (edited_summary rev))]
    end in
  match final_json with
  | JObj d => repair rev d
  | _ => Raised AttributeError
  end.

End Repair.

(** ** The stages of [run_pipeline] *)

(** Why a stage of [run_pipeline] aborts: the [ValueError] of
    [extract_json] (no JSON found), the [TypeError] of the [**] unpacking of a
    value that is not a dict, or an exception of the model or of the
    Finalizing stage. *)
Inductive stage_error : Type :=
| NoJsonObject
| NotAMapping
| PyRaised (e : py_error).

Inductive stage_outcome (A : Type) : Type :=
| Accepted (a : A)
| Aborted (e : stage_error).
Arguments Accepted {A} a.
Arguments Aborted {A} e.

(** [PlannerOut] called with [**planner_json], a dict: each field is read from its key;
    a missing field is a [ValidationError]; other keys are ignored. *)
Definition planner_kwargs (d : list (pystr * jvalue)) : outcome planner :=
  match dict_get d (lit "proposed_tags"), dict_get d (lit "draft_summary") with
  | Some t, Some s => planner_new t s
  | _, _ => Raised ValidationError
  end.

(** [ReviewerOut] called with [**reviewer_json], a dict. *)
Definition reviewer_kwargs (d : list (pystr * jvalue)) : outcome reviewer :=
  match dict_get d (lit "approved_tags"), dict_get d (lit "edited_summary") with
  | Some t, Some s => reviewer_new t s
  | _, _ => Raised ValidationError
  end.

(** The [try] blocks of the Planner and Reviewer stages:
    the model called with [**extract_json(raw)], every exception
    re-raised. *)
Definition stage {A : Type} (model : list (pystr * jvalue) -> outcome A) (raw : pystr)
    : stage_outcome A :=
  match extract_json raw with
  | NoJsonFound => Aborted NoJsonObject
  | Extracted (JObj d) =>
      match model d with
      | Done a => Accepted a
      | Raised e => Aborted (PyRaised e)
      end
  | Extracted _ => Aborted NotAMapping
  end.

Section Pipeline.

Variable str_other : jvalue -> pystr.

(** [run_pipeline] with the three model replies as its inputs: the replies
    of [call_ollama] are arbitrary texts, so the prompts (which embed the
    earlier results) and the printing are left out. *)
Definition run_pipeline (planner_raw reviewer_raw final_raw : pystr)
    : stage_outcome (planner * reviewer * publish) :=
  match stage planner_kwargs planner_raw with
  | Aborted e => Aborted e
  | Accepted pl =>
      match stage reviewer_kwargs reviewer_raw with
      | Aborted e => Aborted e
      | Accepted rv =>
          match finalize str_other rv final_raw with
          | Done pb => Accepted (pl, rv, pb)
          | Raised e => Aborted (PyRaised e)
          end
      end
  end.

End Pipeline.

(** [str()] of a non-string value for concrete runs: [None], [True],
    [False] and integers as Python prints them; floats, lists and dicts by
    their JSON text (Python prints their [repr]). *)
Definition str_other_model (v : jvalue) : pystr :=
  match v with
  | JNull => lit "None"
  | JBool b => if b then lit "True" else lit "False"
  | JInt z => int_str z
  | _ => dumps v
  end.

(** Scenario B of the spec. *)
Example scenario_B :
  finalize str_other_model (mk_reviewer [lit "A"; lit "B"; lit "C"] (lit "s"))
    (litq "{^tags^: [^a^,^a^,^b^], ^summary^: ^w1 w2 w3 w4 w5 w6 w7 w8 w9 w10 w11 w12 w13 w14 w15 w16 w17 w18 w19 w20 w21 w22 w23 w24 w25 w26 w27 w28 w29 w30^}")
  = Done (mk_publish [lit "a"; lit "b"; lit "C"]
      (lit "w1 w2 w3 w4 w5 w6 w7 w8 w9 w10 w11 w12 w13 w14 w15 w16 w17 w18 w19 w20 w21 w22 w23 w24 w25")).
Proof. vm_compute. reflexivity. Qed.

(** ** Word tokens as maximal runs *)

(** The spec's reading of the word-token count: maximal runs of
    alphanumerics, apostrophes and hyphens. *)
Definition spec_cls (c : ascii) : bool := py_isalnum c || ceq c 39 || ceq c 45.

Fixpoint runs_of (p : ascii -> bool) (inrun : bool) (s : pystr) : nat :=
  match s with
  | [] => 0
  | c :: r =>
      if p c then (if inrun then runs_of p true r else S (runs_of p true r))
      else runs_of p false r
  end.

Definition spec_word_count (s : pystr) : nat := runs_of spec_cls false s.

(** Maximal runs of [[\w'-]] that contain at least one [\w] character;
    [seen] records that the current run already has one. *)
Fixpoint word_runs_from (seen : bool) (s : pystr) : nat :=
  match s with
  | [] => 0
  | c :: r =>
      if is_word c then (if seen then word_runs_from true r else S (word_runs_from true r))
      else if in_cls c then word_runs_from seen r
      else word_runs_from false r
  end.

Definition word_runs (s : pystr) : nat := word_runs_from false s.

Definition all_cls (s : pystr) : bool := forallb in_cls s.
Definition no_word (s : pystr) : bool := forallb (fun c => negb (is_word c)) s.

Definition starts_noncls (s : pystr) : bool :=
  match s with [] => true | c :: _ => negb (in_cls c) end.

Definition lasto (p : option ascii) (s : pystr) : option ascii :=
  fold_left (fun _ c => Some c) s p.

Fixpoint drop_cls (s : pystr) : pystr :=
  match s with
  | c :: r => if in_cls c then drop_cls r else s
  | [] => []
  end.

(** ** JSON text round trip and recovery by [extract_json] *)

(** A character that may follow a number without extending it. *)
Definition delim (r : pystr) : bool :=
  match r with
  | [] => true
  | c :: _ => negb (is_digit c || ceq c 46 || ceq c 101 || ceq c 69)
  end.

(** The decimal form of [N.to_uint]: [0], or a leading digit other than 0. *)
Definition lead_ok (u : Decimal.uint) : bool :=
  match u with
  | Decimal.Nil => false
  | Decimal.D0 Decimal.Nil => true
  | Decimal.D0 _ => false
  | _ => true
  end.

(** Object keys pairwise distinct. *)
Fixpoint keys_nodup (kvs : list (pystr * jvalue)) : bool :=
  match kvs with
  | [] => true
  | (k, _) :: kvs' => negb (mem_str k (map fst kvs')) && keys_nodup kvs'
  end.

(** Values whose [dumps] text [loads] reads back: no float (its text is
    not re-derived here) and no repeated key at any depth. *)
Fixpoint jwf (v : jvalue) : bool :=
  match v with
  | JFloat _ => false
  | JArr l => forallb jwf l
  | JObj kvs => keys_nodup kvs && forallb (fun kv => match kv with (_, x) => jwf x end) kvs
  | _ => true
  end.


(** A bound on the parser fuel [pvalue] needs for [v]. *)
Fixpoint jsize (v : jvalue) : nat :=
  match v with
  | JArr l => S (list_sum (map (fun x => S (jsize x)) l))
  | JObj kvs => S (list_sum (map (fun kv => match kv with (_, x) => S (jsize x) end) kvs))
  | _ => 1
  end.

(** Induction on [jvalue] through the elements of arrays and objects. *)
Definition jvalue_ind' (P : jvalue -> Prop)
  (hN : P JNull) (hB : forall b, P (JBool b)) (hI : forall z, P (JInt z))
  (hF : forall l, P (JFloat l)) (hS : forall s, P (JStr s))
  (hA : forall l, Forall P l -> P (JArr l))
  (hO : forall kvs, Forall (fun kv => P (snd kv)) kvs -> P (JObj kvs)) : forall v, P v :=
  fix go v :=
    match v with
    | JNull => hN
    | JBool b => hB b
    | JInt z => hI z
    | JFloat l => hF l
    | JStr s => hS s
    | JArr l =>
        hA l ((fix gol (l : list jvalue) : Forall P l :=
                 match l with
                 | [] => Forall_nil P
                 | x :: l' => Forall_cons x (go x) (gol l')
                 end) l)
    | JObj kvs =>
        hO kvs ((fix goo (kvs : list (pystr * jvalue)) : Forall (fun kv => P (snd kv)) kvs :=
                   match kvs with
                   | [] => Forall_nil _
                   | (k, x) :: kvs' =>
                       @Forall_cons _ (fun kv => P (snd kv)) (k, x) kvs' (go x) (goo kvs')
                   end) kvs)
    end.

(** One [key: value] member of the [dumps] text of an object. *)
Definition entry (kv : pystr * jvalue) : pystr :=
  match kv with (k, x) => quote k ++ lit ": " ++ dumps x end.

(** [pvalue] reads the [dumps] text of [v] back, whatever follows it. *)
Definition RT (v : jvalue) : Prop :=
  jwf v = true -> forall n r, jsize v < n -> delim r = true ->
  pvalue n (dumps v ++ r) = Some (v, r).

(** No three consecutive backticks in [s], when [k] of them (at most two)
    come just before it. *)
Fixpoint nf (k : nat) (s : pystr) : bool :=
  match s with
  | [] => true
  | c :: r => if is_bt c then (if 2 <=? k then false else nf (S k) r) else nf 0 r
  end.

(** The number of backticks that end [k] backticks followed by [s]. *)
Fixpoint tr (k : nat) (s : pystr) : nat :=
  match s with
  | [] => k
  | c :: r => if is_bt c then tr (S k) r else tr 0 r
  end.







Module Tokens.

Lemma word_cls c : is_word c = true -> in_cls c = true.
Proof. unfold in_cls. intros H. rewrite H. reflexivity. Qed.

Lemma noncls_noword c : in_cls c = false -> is_word c = false.
Proof. unfold in_cls. destruct (is_word c); auto. Qed.

Lemma take_drop_cls s : s = take_cls s ++ drop_cls s.
Proof.
  induction s as [|c r IH]; simpl; auto.
  destruct (in_cls c); simpl; auto. f_equal; auto.
Qed.

Lemma drop_cls_starts s : starts_noncls (drop_cls s) = true.
Proof.
  induction s as [|c r IH]; simpl; auto.
  destruct (in_cls c) eqn:E; simpl; auto. rewrite E. reflexivity.
Qed.

Lemma take_cls_all s : all_cls (take_cls s) = true.
Proof.
  induction s as [|c r IH]; simpl; auto.
  destruct (in_cls c) eqn:E; simpl; auto. rewrite E, IH. reflexivity.
Qed.

Lemma take_cls_app X t :
  all_cls X = true -> starts_noncls t = true -> take_cls (X ++ t) = X.
Proof.
  intros HX Ht. induction X as [|c X IH]; simpl in *.
  - destruct t as [|c t]; simpl in *; auto.
    destruct (in_cls c); simpl in *; auto; discriminate.
  - apply andb_true_iff in HX as [Hc HX]. rewrite Hc. f_equal. auto.
Qed.

Lemma starts_noncls_hd t :
  starts_noncls t = true -> isw_opt (hd_error t) = false.
Proof.
  destruct t as [|c t]; simpl; auto. intros H.
  apply noncls_noword. destruct (in_cls c); auto; discriminate.
Qed.

Lemma nth_error_app_len (X t : pystr) : nth_error (X ++ t) (length X) = hd_error t.
Proof. induction X; simpl; auto. Qed.

Lemma lb_nonword R : forall pos p after best,
  is_word p = false -> no_word R = true -> isw_opt after = false ->
  last_bnd pos p R after best = best.
Proof.
  induction R as [|c R IH]; intros pos p after best Hp HR Ha; simpl in *.
  - unfold bnd. simpl. rewrite Hp, Ha. reflexivity.
  - apply andb_true_iff in HR as [Hc HR]. apply negb_true_iff in Hc.
    unfold bnd at 1. simpl. rewrite Hp, Hc. simpl. apply IH; auto.
Qed.

Lemma last_cons_def (x p : ascii) W : last (x :: W) p = last W x.
Proof. destruct W as [|y W]; [reflexivity|]. revert y. induction W; intros; simpl in *; auto. Qed.

Lemma lb_word_tail W : forall pos p best N after,
  is_word (last W p) = true -> no_word N = true -> isw_opt after = false ->
  last_bnd pos p (W ++ N) after best = Some (pos + length W).
Proof.
  induction W as [|x W IH]; intros pos p best N after Hw HN Ha.
  - simpl in *. rewrite Nat.add_0_r. destruct N as [|c N]; simpl.
    + unfold bnd. simpl. rewrite Hw, Ha. reflexivity.
    + simpl in HN. apply andb_true_iff in HN as [Hc HN]. apply negb_true_iff in Hc.
      unfold bnd. simpl isw_opt. rewrite Hw, Hc. simpl.
      apply lb_nonword; auto.
  - rewrite last_cons_def in Hw. simpl. rewrite IH; auto.
Qed.

Lemma match_at_word prev w W' N t :
  isw_opt prev = false -> is_word w = true -> is_word (last W' w) = true ->
  all_cls W' = true -> no_word N = true -> all_cls N = true ->
  starts_noncls t = true ->
  match_at prev (w :: W' ++ N ++ t) = Some (length (w :: W')).
Proof.
  intros Hp Hw Hl HW HN HNc Ht.
  assert (Ecls : take_cls (w :: W' ++ N ++ t) = w :: W' ++ N).
  { rewrite app_assoc, app_comm_cons. apply take_cls_app; auto.
    simpl. rewrite (word_cls _ Hw). unfold all_cls in *. rewrite forallb_app.
    rewrite HW, HNc. reflexivity. }
  unfold match_at. rewrite Ecls. cbn [hd_error].
  unfold bnd at 1. cbn [isw_opt]. rewrite Hp, Hw. cbn [xorb].
  replace (w :: W' ++ N ++ t) with ((w :: W' ++ N) ++ t) by (simpl; rewrite app_assoc; reflexivity).
  rewrite nth_error_app_len.
  rewrite lb_word_tail; auto using starts_noncls_hd.
Qed.

Lemma match_at_nonword_run p c N t :
  is_word c = false -> in_cls c = true -> no_word N = true -> all_cls N = true ->
  starts_noncls t = true -> match_at p ((c :: N) ++ t) = None.
Proof.
  intros Hc Hcc HN HNc Ht. unfold match_at.
  destruct (bnd p (hd_error ((c :: N) ++ t))); auto.
  rewrite take_cls_app; [| simpl; rewrite Hcc; exact HNc | exact Ht].
  cbv beta iota. rewrite nth_error_app_len.
  apply lb_nonword; auto using starts_noncls_hd.
Qed.

Lemma fa_skip_match W : forall p Z,
  findall_from p (length W) (W ++ Z) = findall_from (lasto p W) 0 Z.
Proof. induction W as [|c W IH]; intros; simpl; auto. Qed.

Lemma fa_nonword_prev N : forall p Y,
  isw_opt p = false -> no_word N = true ->
  findall_from p 0 (N ++ Y) = findall_from (lasto p N) 0 Y.
Proof.
  induction N as [|c N IH]; intros p Y Hp HN; simpl in *; auto.
  apply andb_true_iff in HN as [Hc HN]. apply negb_true_iff in Hc.
  unfold match_at at 1. unfold bnd at 1. simpl. rewrite Hp, Hc. simpl.
  apply IH; auto.
Qed.

Lemma fa_nonword_run N : forall p t,
  no_word N = true -> all_cls N = true -> starts_noncls t = true ->
  findall_from p 0 (N ++ t) = findall_from (lasto p N) 0 t.
Proof.
  induction N as [|c N IH]; intros p t HN HNc Ht; simpl in *; auto.
  apply andb_true_iff in HN as [Hc HN]. apply negb_true_iff in Hc.
  apply andb_true_iff in HNc as [Hcc HNc].
  change (c :: N ++ t) with ((c :: N) ++ t).
  rewrite match_at_nonword_run; auto.
Qed.

Lemma fa_noncls p x t :
  in_cls x = false -> findall_from p 0 (x :: t) = findall_from (Some x) 0 t.
Proof.
  intros Hx. simpl. unfold match_at. simpl. rewrite Hx.
  destruct (bnd p (Some x)); reflexivity.
Qed.

End Tokens.

Module Runs.
Import Tokens.

Lemma wr_nonword N : forall y,
  no_word N = true -> word_runs_from false (N ++ y) = word_runs_from false y.
Proof.
  induction N as [|c N IH]; intros y HN; simpl in *; auto.
  apply andb_true_iff in HN as [Hc HN]. apply negb_true_iff in Hc. rewrite Hc.
  destruct (in_cls c); auto.
Qed.

Lemma wr_true_cls X : forall y,
  all_cls X = true -> word_runs_from true (X ++ y) = word_runs_from true y.
Proof.
  induction X as [|c X IH]; intros y HX; simpl in *; auto.
  apply andb_true_iff in HX as [Hc HX]. rewrite Hc.
  destruct (is_word c); auto.
Qed.

Lemma wr_start t : starts_noncls t = true -> word_runs_from true t = word_runs_from false t.
Proof.
  destruct t as [|c t]; simpl; auto. intros H. apply negb_true_iff in H.
  rewrite (noncls_noword _ H), H. reflexivity.
Qed.

Lemma first_word R : no_word R = false ->
  exists N1 w R', R = N1 ++ w :: R' /\ no_word N1 = true /\ is_word w = true.
Proof.
  induction R as [|c R IH]; simpl; intros H; [discriminate|].
  destruct (is_word c) eqn:Hc.
  - exists [], c, R. auto.
  - simpl in H. destruct (IH H) as (N1 & w & R' & E & HN & Hw).
    exists (c :: N1), w, R'. subst. simpl. rewrite Hc. auto.
Qed.

Lemma no_word_app X Y : no_word (X ++ Y) = no_word X && no_word Y.
Proof. apply forallb_app. Qed.

Lemma all_cls_app X Y : all_cls (X ++ Y) = all_cls X && all_cls Y.
Proof. apply forallb_app. Qed.

Lemma last_word X : no_word X = false ->
  exists Y w N2, X = Y ++ w :: N2 /\ no_word N2 = true /\ is_word w = true.
Proof.
  induction X as [|c X IH] using rev_ind; simpl; intros H; [discriminate|].
  rewrite no_word_app in H. simpl in H.
  destruct (is_word c) eqn:Hc.
  - exists X, c, []. auto.
  - rewrite andb_true_r in H. destruct (IH H) as (Y & w & N2 & E & HN & Hw).
    exists Y, w, (N2 ++ [c]). subst. rewrite <- app_assoc. split; auto.
    rewrite no_word_app, HN. simpl. rewrite Hc. auto.
Qed.

Lemma lasto_nonword N : forall p,
  isw_opt p = false -> no_word N = true -> isw_opt (lasto p N) = false.
Proof.
  induction N as [|c N IH]; intros p Hp HN; simpl in *; auto.
  apply andb_true_iff in HN as [Hc HN]. apply IH; auto. simpl. now apply negb_true_iff.
Qed.

Lemma last_snoc (Y : pystr) w d : last (Y ++ [w]) d = w.
Proof. induction Y as [|a Y IH]; simpl; auto. destruct (Y ++ [w]) eqn:E; auto.
  destruct Y; discriminate. Qed.

(** The scan of [findall] counts the runs of [[\w'-]] with a [\w]
    character, from any position that does not cut such a run. *)
Lemma findall_count n : forall s p, length s <= n ->
  (isw_opt p = false \/ starts_noncls s = true) ->
  length (findall_from p 0 s) = word_runs s.
Proof.
  induction n as [|n IH]; intros s p Hlen Hp.
  { destruct s; simpl in *; [reflexivity | lia]. }
  destruct s as [|c r]; [reflexivity|].
  destruct (in_cls c) eqn:Hc.
  2:{ rewrite fa_noncls by exact Hc. unfold word_runs. simpl.
      rewrite (noncls_noword _ Hc), Hc. apply IH; simpl in *; [lia|].
      left. apply noncls_noword; exact Hc. }
  assert (Hp' : isw_opt p = false).
  { destruct Hp as [Hp|Hp]; auto. simpl in Hp. rewrite Hc in Hp. discriminate. }
  clear Hp.
  pose proof (take_drop_cls (c :: r)) as Edec.
  pose proof (take_cls_all (c :: r)) as HRc.
  pose proof (drop_cls_starts (c :: r)) as Ht.
  assert (HRne : take_cls (c :: r) <> []) by (simpl; rewrite Hc; discriminate).
  remember (take_cls (c :: r)) as R eqn:ER. remember (drop_cls (c :: r)) as t eqn:Et.
  clear ER Et. unfold word_runs. rewrite Edec.
  assert (Hlt : length t <= n).
  { apply (f_equal (@length ascii)) in Edec. rewrite length_app in Edec.
    destruct R; [congruence|]. simpl in *. lia. }
  destruct (no_word R) eqn:HR.
  - rewrite fa_nonword_run by auto. rewrite wr_nonword by auto.
    apply IH; auto.
  - destruct (first_word R HR) as (N1 & w & R' & ER & HN1 & Hw).
    assert (HX : no_word (w :: R') = false) by (simpl; rewrite Hw; reflexivity).
    destruct (last_word _ HX) as (Y & w' & N2 & EX & HN2 & Hw').
    assert (EW : exists W', Y ++ [w'] = w :: W' /\ is_word (last W' w) = true).
    { destruct Y as [|y Y].
      - simpl in EX. inversion EX; subst. exists []. auto.
      - simpl in EX. inversion EX; subst. exists (Y ++ [w']). split; auto.
        rewrite last_snoc. exact Hw'. }
    destruct EW as (W' & EW & HlW).
    assert (ER2 : R = N1 ++ w :: W' ++ N2).
    { rewrite ER, EX, app_comm_cons, <- EW, <- app_assoc. reflexivity. }
    rewrite ER2 in HRc.
    rewrite all_cls_app in HRc. apply andb_true_iff in HRc as [_ HRc].
    simpl in HRc. apply andb_true_iff in HRc as [_ HRc].
    rewrite all_cls_app in HRc. apply andb_true_iff in HRc as [HW'c HN2c].
    rewrite ER2, <- !app_assoc. simpl app.
    rewrite fa_nonword_prev by auto.
    rewrite wr_nonword by auto.
    cbn [findall_from]. rewrite <- !app_assoc.
    rewrite match_at_word; auto using lasto_nonword.
    replace (firstn (length (w :: W')) (w :: W' ++ N2 ++ t)) with (w :: W')
      by (rewrite app_comm_cons, firstn_app, Nat.sub_diag, firstn_all; simpl;
          rewrite app_nil_r; reflexivity).
    replace (length (w :: W') - 1) with (length W') by (simpl; lia).
    rewrite fa_skip_match, fa_nonword_run by auto.
    simpl. rewrite Hw. rewrite wr_true_cls, wr_true_cls, wr_start by auto.
    f_equal. apply IH; auto.
Qed.

End Runs.

Module Joined.
Import Tokens Runs.

Lemma lb_bound R : forall pos p after best j,
  (forall b, best = Some b -> b <= pos) ->
  last_bnd pos p R after best = Some j -> j <= pos + length R.
Proof.
  induction R as [|c R IH]; intros pos p after best j Hb E; simpl in *.
  - destruct (bnd (Some p) after); [inversion E; lia|]. apply Hb in E. lia.
  - apply IH in E; [lia|]. intros b Eb.
    destruct (bnd (Some p) (Some c)); [inversion Eb; lia|]. apply Hb in Eb. lia.
Qed.

Lemma match_at_bound p s j : match_at p s = Some j -> j <= length (take_cls s).
Proof.
  unfold match_at. destruct (bnd p (hd_error s)); [|discriminate].
  destruct (take_cls s) as [|c R'] eqn:E; [discriminate|].
  intros H. apply lb_bound in H; [simpl; lia|]. discriminate.
Qed.

Lemma all_cls_firstn n X : all_cls X = true -> all_cls (firstn n X) = true.
Proof.
  revert X. induction n as [|n IH]; intros X H; [reflexivity|].
  destruct X as [|c X]; [reflexivity|]. simpl in *.
  apply andb_true_iff in H as [H1 H2]. rewrite H1. simpl. auto.
Qed.

Lemma findall_tokens_cls s : forall p k,
  Forall (fun t => all_cls t = true) (findall_from p k s).
Proof.
  induction s as [|c r IH]; intros p k; simpl; [constructor|].
  destruct k as [|k]; auto.
  destruct (match_at p (c :: r)) as [j|] eqn:E; auto.
  constructor; auto.
  apply match_at_bound in E.
  rewrite (take_drop_cls (c :: r)), firstn_app.
  replace (j - length (take_cls (c :: r))) with 0 by lia. rewrite firstn_O, app_nil_r.
  apply all_cls_firstn, take_cls_all.
Qed.

Lemma wr_false_true_le y : word_runs_from false y <= S (word_runs_from true y).
Proof.
  induction y as [|c y IH]; simpl; [lia|].
  destruct (is_word c); [lia|]. destruct (in_cls c); lia.
Qed.

Lemma wr_cls_app X : forall y, all_cls X = true ->
  word_runs_from false (X ++ y) <= S (word_runs_from true y).
Proof.
  induction X as [|c X IH]; intros y HX; simpl in *.
  - apply wr_false_true_le.
  - apply andb_true_iff in HX as [Hc HX]. rewrite Hc.
    destruct (is_word c).
    + rewrite wr_true_cls; auto.
    + auto.
Qed.

Lemma word_runs_join ts : Forall (fun t => all_cls t = true) ts ->
  word_runs (join_sp ts) <= length ts.
Proof.
  induction ts as [|x ts IH]; intros H; [simpl; unfold word_runs; simpl; lia|].
  inversion H as [|? ? Hx Hts]; subst.
  destruct ts as [|y ts].
  - simpl. unfold word_runs. rewrite <- (app_nil_r x).
    pose proof (wr_cls_app x [] Hx). simpl in H0. lia.
  - change (join_sp (x :: y :: ts)) with (x ++ [" "%char] ++ join_sp (y :: ts)).
    unfold word_runs. pose proof (wr_cls_app x ([" "%char] ++ join_sp (y :: ts)) Hx) as H0.
    assert (Esp : forall J, word_runs_from true ([" "%char] ++ J) = word_runs_from false J)
      by reflexivity.
    rewrite Esp in H0. specialize (IH Hts). unfold word_runs in IH.
    change (length (x :: y :: ts)) with (S (length (y :: ts))). lia.
Qed.

Lemma word_count_runs s : word_count s = word_runs s.
Proof. unfold word_count, word_tokens. apply findall_count with (n := length s); auto. Qed.

(** The fallback summary [" ".join(tokens[:25])] is within the cap. *)
Lemma fallback_summary_cap s : word_count (join_sp (firstn 25 (word_tokens s))) <= 25.
Proof.
  rewrite word_count_runs.
  eapply Nat.le_trans; [apply word_runs_join|].
  - pose proof (findall_tokens_cls s None 0) as F. rewrite Forall_forall in F.
    apply Forall_forall. intros t Ht. apply F.
    unfold word_tokens in Ht. rewrite <- (firstn_skipn 25 (findall_from None 0 s)).
    apply in_or_app. left. exact Ht.
  - rewrite length_firstn. lia.
Qed.

End Joined.

Module Strip.

Definition starts_ok (p : ascii -> bool) (s : pystr) : bool :=
  match s with [] => true | c :: _ => negb (p c) end.

Lemma lstrip_starts p s : starts_ok p (lstrip_with p s) = true.
Proof.
  induction s as [|c r IH]; simpl; auto.
  destruct (p c) eqn:E; simpl; auto. rewrite E. reflexivity.
Qed.

Lemma lstrip_id p s : starts_ok p s = true -> lstrip_with p s = s.
Proof.
  destruct s as [|c r]; simpl; auto. intros H. destruct (p c); auto. discriminate.
Qed.

Lemma lstrip_split p s : exists pre, s = pre ++ lstrip_with p s.
Proof.
  induction s as [|c r IH]; simpl; [exists []; auto|].
  destruct (p c).
  - destruct IH as [pre E]. exists (c :: pre). simpl. congruence.
  - exists []. reflexivity.
Qed.

Lemma rstrip_starts p a : starts_ok p a = true -> starts_ok p (rstrip_with p a) = true.
Proof.
  unfold rstrip_with. intros H.
  destruct (lstrip_split p (rev a)) as [pre E].
  assert (Ea : a = rev (lstrip_with p (rev a)) ++ rev pre).
  { rewrite <- rev_app_distr, <- E, rev_involutive. reflexivity. }
  destruct (rev (lstrip_with p (rev a))) as [|c b]; simpl; auto.
  rewrite Ea in H. exact H.
Qed.

Lemma py_strip_idem s : py_strip (py_strip s) = py_strip s.
Proof.
  unfold py_strip. set (b := rstrip_with py_isspace (lstrip_with py_isspace s)).
  rewrite (lstrip_id py_isspace b) by (apply rstrip_starts, lstrip_starts).
  unfold b at 1, rstrip_with. rewrite rev_involutive.
  rewrite (lstrip_id py_isspace (lstrip_with py_isspace _)) by apply lstrip_starts.
  reflexivity.
Qed.

Lemma str_eqb_true a b : str_eqb a b = true <-> a = b.
Proof.
  unfold str_eqb. destruct (list_eq_dec ascii_dec a b); split; congruence.
Qed.

Lemma mem_str_In x l : mem_str x l = true <-> In x l.
Proof.
  unfold mem_str. rewrite existsb_exists. split.
  - intros [y [Hy E]]. apply str_eqb_true in E. subst. exact Hy.
  - intros H. exists x. split; auto. apply str_eqb_true. reflexivity.
Qed.

Lemma nonblank_nil x : nonblank x = true -> x <> [].
Proof. intros H E. subst. discriminate. Qed.

End Strip.

Module RepairProps.
Import Strip Joined.

(** A tag as the repair step should emit it: non-empty and trimmed. *)
Definition good_tag (t : pystr) : Prop := t <> [] /\ py_strip t = t.

(** The loop state: [seen] holds the lowered forms of [uniq]. *)
Definition inv (seen uniq : list pystr) : Prop :=
  (forall x, In x seen <-> In x (map py_lower uniq)) /\
  NoDup (map py_lower uniq) /\ Forall good_tag uniq.

Lemma inv_nil : inv [] [].
Proof. split; [|split]; simpl; auto using NoDup_nil; tauto. Qed.

Lemma inv_add seen uniq t :
  inv seen uniq -> good_tag t -> ~ In (py_lower t) seen ->
  inv (py_lower t :: seen) (uniq ++ [t]).
Proof.
  intros [Hs [Hn Hg]] Ht Hnot. split; [|split].
  - intros x. rewrite map_app, in_app_iff. simpl. rewrite Hs. tauto.
  - rewrite map_app. apply NoDup_app; auto.
    + repeat constructor. auto.
    + intros x Hx Hx'. simpl in Hx'. destruct Hx' as [<-|[]]. apply Hnot, Hs. exact Hx.
  - apply Forall_app. split; auto.
Qed.

Lemma dedup_inv so l : forall seen uniq, inv seen uniq ->
  let '(seen', uniq') := dedup so l seen uniq in inv seen' uniq'.
Proof.
  induction l as [|t l IH]; intros seen uniq H; simpl; auto.
  destruct (negb (is_nil (py_strip (str_of so t)))
            && negb (mem_str (py_lower (py_strip (str_of so t))) seen)) eqn:E; apply IH; auto.
  apply andb_true_iff in E as [E1 E2]. apply inv_add; auto.
  - split; [|apply py_strip_idem]. intros Z. rewrite Z in E1. discriminate.
  - intros Hin. apply mem_str_In in Hin. rewrite Hin in E2. discriminate.
Qed.

Lemma topup_inv l : Forall good_tag l -> forall seen uniq, inv seen uniq ->
  let '(seen', uniq') := topup l seen uniq in inv seen' uniq'.
Proof.
  induction l as [|t l IH]; intros Hl seen uniq H; simpl; auto.
  inversion Hl as [|? ? Ht Hl']; subst.
  assert (Hst : let '(s1, u1) := if negb (mem_str (py_lower t) seen)
                   then (py_lower t :: seen, uniq ++ [t]) else (seen, uniq) in inv s1 u1).
  { destruct (mem_str (py_lower t) seen) eqn:E; simpl; auto.
    apply inv_add; auto. intros Hin. apply mem_str_In in Hin. congruence. }
  destruct (if negb (mem_str (py_lower t) seen)
            then (py_lower t :: seen, uniq ++ [t]) else (seen, uniq)) as [s1 u1].
  destruct (length u1 =? 3); [exact Hst | apply IH; auto].
Qed.

Lemma inv_firstn n seen uniq : inv seen uniq ->
  NoDup (map py_lower (firstn n uniq)) /\ Forall good_tag (firstn n uniq).
Proof.
  intros [_ [Hn Hg]]. rewrite <- (firstn_skipn n uniq) in Hn, Hg.
  rewrite map_app in Hn. apply NoDup_app_remove_r in Hn.
  apply Forall_app in Hg as [Hg _]. auto.
Qed.

Lemma repaired_tags_good so rev d : Forall good_tag (approved_tags rev) ->
  NoDup (map py_lower (repaired_tags so rev d)) /\ Forall good_tag (repaired_tags so rev d).
Proof.
  intros Hr. unfold repaired_tags.
  pose proof (dedup_inv so (tags_candidates so rev d) [] [] inv_nil) as H1.
  destruct (dedup so (tags_candidates so rev d) [] []) as [seen uniq].
  assert (H2 : let '(s2, u2) := if length uniq <? 3 then topup (approved_tags rev) seen uniq
                                 else (seen, uniq) in inv s2 u2).
  { destruct (length uniq <? 3); auto. apply topup_inv; auto. }
  destruct (if length uniq <? 3 then topup (approved_tags rev) seen uniq else (seen, uniq))
    as [s2 u2].
  eapply inv_firstn; eauto.
Qed.

Lemma as_str_list_map l : as_str_list (map JStr l) = Some l.
Proof. induction l as [|a l IH]; simpl; [|rewrite IH]; reflexivity. Qed.

(** Publish validity as [PublishOut] checks it. *)
Definition publish_ok (p : publish) : bool :=
  (length (tags p) =? 3) && forallb nonblank (tags p) && (word_count (summary p) <=? 25).

Lemma publish_new_spec l x p :
  publish_new (JArr (map JStr l)) (JStr x) = Done p ->
  p = mk_publish l x /\ publish_ok p = true.
Proof.
  unfold publish_new. simpl.
  pose proof (as_str_list_map l) as E.
  rewrite E. destruct ((length l =? 3) && forallb nonblank l && (word_count x <=? 25)) eqn:H;
    intros Hd; inversion Hd; subst; auto.
Qed.

Lemma publish_new_ok l x :
  (length l =? 3) && forallb nonblank l && (word_count x <=? 25) = true ->
  publish_new (JArr (map JStr l)) (JStr x) = Done (mk_publish l x).
Proof.
  intros H. unfold publish_new. simpl.
  pose proof (as_str_list_map l) as E.
  rewrite E, H. reflexivity.
Qed.

Lemma publish_new_errors t s e : publish_new t s = Raised e -> e = ValidationError.
Proof.
  unfold publish_new. destruct (list_str_field t), (str_field s); try congruence.
  destruct (_ && _ && _); congruence.
Qed.

(** The fallback branch, with a reviewer result [ReviewerOut] accepted. *)
Lemma fallback_done so rev d : reviewer_ok rev = true ->
  let tg := repaired_tags so rev d in
  let sm := truncate_summary (summary_source so rev d) in
  let ftags := if negb (is_nil (approved_tags rev))
               then firstn 3 (approved_tags rev) else firstn 3 tg in
  let fsum := if word_count (edited_summary rev) <=? 25
              then edited_summary rev
              else join_sp (firstn 25 (word_tokens sm)) in
  ftags = approved_tags rev /\
  publish_new (JArr (map JStr ftags)) (JStr fsum) = Done (mk_publish (approved_tags rev) fsum).
Proof.
  intros Hr. cbv zeta. unfold reviewer_ok in Hr. apply andb_true_iff in Hr as [Hl Hb].
  match goal with |- ?F = _ /\ _ => assert (Ef : F = approved_tags rev) end.
  { apply Nat.eqb_eq in Hl.
    destruct (approved_tags rev) as [|a [|b [|c [|z w]]]]; try discriminate; reflexivity. }
  rewrite Ef. split; [reflexivity|]. apply publish_new_ok. rewrite Hl, Hb. cbn [andb].
  destruct (word_count (edited_summary rev) <=? 25) eqn:E; [exact E|].
  apply Nat.leb_le, fallback_summary_cap.
Qed.

Lemma repair_total so rev d : reviewer_ok rev = true ->
  exists p, repair so rev d = Done p /\ publish_ok p = true /\
    (p = mk_publish (repaired_tags so rev d) (truncate_summary (summary_source so rev d))
     \/ tags p = approved_tags rev).
Proof.
  intros Hr. unfold repair.
  destruct (publish_new (JArr (map JStr (repaired_tags so rev d)))
              (JStr (truncate_summary (summary_source so rev d)))) as [p|e] eqn:E1.
  - apply publish_new_spec in E1 as [Ep Hok]. exists p. auto.
  - apply publish_new_errors in E1. subst e.
    destruct (fallback_done so rev d Hr) as [Ef Ed]. cbv zeta in Ed |- *.
    rewrite Ed. eexists. split; [reflexivity|]. split; [|right; reflexivity].
    apply publish_new_spec in Ed as [_ Hok]. exact Hok.
Qed.

End RepairProps.

(** ** The claims *)

Module Roundtrip.

Lemma pstring_esc c r : pstring (esc_out c ++ r) =
  match pstring r with Some (x, rest) => Some (c :: x, rest) | None => None end.
Proof. destruct c as [[] [] [] [] [] [] [] []]; reflexivity. Qed.

Lemma pstring_quote s r : pstring (flat_map esc_out s ++ chr 34 :: r) = Some (s, r).
Proof.
  induction s as [|c s IH]; [reflexivity|].
  simpl flat_map. rewrite <- app_assoc, pstring_esc, IH. reflexivity.
Qed.

Lemma chars_uint_uint u : chars_uint (uint_chars u) = u.
Proof. induction u; simpl; congruence. Qed.

Lemma uint_chars_digits u : forallb is_digit (uint_chars u) = true.
Proof. induction u; simpl; auto. Qed.

Lemma span_digits_app ds r : forallb is_digit ds = true -> delim r = true ->
  span_digits (ds ++ r) = (ds, r).
Proof.
  intros Hd Hr. induction ds as [|c ds IH]; simpl in *.
  - destruct r as [|c r]; [reflexivity|]. simpl in Hr |- *.
    destruct (is_digit c); [discriminate|reflexivity].
  - apply andb_true_iff in Hd as [H1 H2]. rewrite H1, IH; auto.
Qed.

Lemma to_uint_lead n : lead_ok (N.to_uint n) = true.
Proof.
  assert (E : N.to_uint n = Decimal.unorm (N.to_uint n)).
  { rewrite <- DecimalN.Unsigned.to_of, DecimalN.Unsigned.of_to. reflexivity. }
  remember (N.to_uint n) as u eqn:Eu. clear Eu.
  destruct u as [|u|u|u|u|u|u|u|u|u|u]; try reflexivity.
  - discriminate.
  - unfold Decimal.unorm in E. simpl in E. assert (L := DecimalFacts.nb_digits_nzhead u).
    destruct (Decimal.nzhead u) eqn:Ex; try discriminate.
    + injection E as ->. reflexivity.
    + injection E as ->. simpl in L. lia.
Qed.

Lemma delim_cons c r : delim (c :: r) = true ->
  is_digit c = false /\ ceq c 46 = false /\ ceq c 101 = false /\ ceq c 69 = false.
Proof.
  simpl. destruct (is_digit c), (ceq c 46), (ceq c 101), (ceq c 69); simpl; intuition discriminate.
Qed.

Lemma pnumber_uint u r : lead_ok u = true -> delim r = true ->
  pnumber (uint_chars u ++ r) = Some (JInt (Z.of_N (N.of_uint u)), r) /\
  pnumber (chr 45 :: uint_chars u ++ r) = Some (JInt (Z.opp (Z.of_N (N.of_uint u))), r).
Proof.
  intros Hu Hr.
  destruct u as [|u|u|u|u|u|u|u|u|u|u]; try discriminate;
  [destruct u; try discriminate| | | | | | | | |];
  simpl uint_chars; unfold pnumber; simpl;
  try rewrite (span_digits_app (uint_chars u) r (uint_chars_digits u) Hr);
  (destruct r as [|c [|d r']]; [|destruct (delim_cons _ _ Hr) as [E1 [E2 [E3 E4]]]
                                 |destruct (delim_cons _ _ Hr) as [E1 [E2 [E3 E4]]]];
   simpl; rewrite ?E2; simpl; rewrite ?E3, ?E4; simpl; rewrite ?chars_uint_uint; split; reflexivity).
Qed.

Lemma pnumber_int z r : delim r = true -> pnumber (int_str z ++ r) = Some (JInt z, r).
Proof.
  intros Hr. unfold int_str. destruct (z <? 0)%Z eqn:Ez.
  - apply Z.ltb_lt in Ez. simpl. rewrite (proj2 (pnumber_uint _ r (to_uint_lead _) Hr)).
    rewrite DecimalN.Unsigned.of_to, Z2N.id by lia. do 3 f_equal. lia.
  - apply Z.ltb_ge in Ez. rewrite (proj1 (pnumber_uint _ r (to_uint_lead _) Hr)).
    rewrite DecimalN.Unsigned.of_to, Z2N.id by lia. reflexivity.
Qed.

Lemma pvalue_uint n u r : lead_ok u = true ->
  pvalue (S n) (uint_chars u ++ r) = pnumber (uint_chars u ++ r) /\
  pvalue (S n) (chr 45 :: uint_chars u ++ r) = pnumber (chr 45 :: uint_chars u ++ r).
Proof.
  intros Hu. destruct u as [|u|u|u|u|u|u|u|u|u|u]; try discriminate;
  [destruct u; try discriminate| | | | | | | | |]; split; reflexivity.
Qed.

Lemma pvalue_int n z r : delim r = true -> pvalue (S n) (int_str z ++ r) = Some (JInt z, r).
Proof.
  intros Hr. rewrite <- (pnumber_int z r Hr). unfold int_str.
  destruct (z <? 0)%Z; [apply pvalue_uint | apply pvalue_uint]; apply to_uint_lead.
Qed.

Lemma uint_head u : lead_ok u = true ->
  exists c t, uint_chars u = c :: t /\ is_json_ws c = false /\ ceq c 93 = false /\
    ceq c 125 = false /\ ceq c 44 = false /\ ceq c 34 = false.
Proof.
  intros Hu. destruct u as [|u|u|u|u|u|u|u|u|u|u]; try discriminate;
  [destruct u; try discriminate| | | | | | | | |];
  eexists; eexists; repeat split; reflexivity.
Qed.

Lemma dumps_head v : jwf v = true ->
  exists c t, dumps v = c :: t /\ is_json_ws c = false /\ ceq c 93 = false /\
    ceq c 125 = false /\ ceq c 44 = false.
Proof.
  destruct v as [|[]|z|lex|s|l|kvs]; intros H; try discriminate;
  try (eexists; eexists; repeat split; reflexivity).
  simpl. unfold int_str. destruct (z <? 0)%Z.
  - eexists; eexists; repeat split; reflexivity.
  - destruct (uint_head _ (to_uint_lead (Z.to_N z))) as [c [t [E [H1 [H2 [H3 [H4 _]]]]]]].
    rewrite E. eauto 10.
Qed.

Lemma skip_ws_dumps v r : jwf v = true -> skip_ws (dumps v ++ r) = dumps v ++ r.
Proof.
  intros H. destruct (dumps_head v H) as [c [t [E [H1 _]]]]. rewrite E. simpl. rewrite H1.
  reflexivity.
Qed.

Lemma quote_app k L : quote k ++ L = chr 34 :: flat_map esc_out k ++ chr 34 :: L.
Proof. unfold quote. simpl. rewrite <- app_assoc. reflexivity. Qed.

Lemma pmembers_step n acc k R :
  pmembers (S n) acc (quote k ++ lit ": " ++ R) =
  match pvalue n (skip_ws R) with
  | None => None
  | Some (v, r3) =>
      let acc' := dict_set acc k v in
      match skip_ws r3 with
      | c4 :: r4 =>
          if ceq c4 125 then Some (JObj acc', r4)
          else if ceq c4 44 then pmembers n acc' (skip_ws r4)
          else None
      | [] => None
      end
  end.
Proof.
  rewrite quote_app. simpl. rewrite pstring_quote. reflexivity.
Qed.

Lemma pelems_step n acc s :
  pelems (S n) acc s =
  match pvalue n s with
  | None => None
  | Some (v, r1) =>
      match skip_ws r1 with
      | c :: r2 =>
          if ceq c 93 then Some (JArr (acc ++ [v]), r2)
          else if ceq c 44 then pelems n (acc ++ [v]) (skip_ws r2)
          else None
      | [] => None
      end
  end.
Proof. reflexivity. Qed.

Lemma pvalue_arr_step n R :
  pvalue (S n) (chr 91 :: R) =
  match skip_ws R with
  | c1 :: r1 => if ceq c1 93 then Some (JArr [], r1) else pelems n [] (c1 :: r1)
  | [] => None
  end.
Proof. reflexivity. Qed.

Lemma pvalue_obj_step n R :
  pvalue (S n) (chr 123 :: R) =
  match skip_ws R with
  | c1 :: r1 => if ceq c1 125 then Some (JObj [], r1) else pmembers n [] (c1 :: r1)
  | [] => None
  end.
Proof. reflexivity. Qed.

Lemma join_cons_app sep a xs : exists t, join_with sep (a :: xs) = a ++ t.
Proof.
  destruct xs as [|b xs]; [exists []; rewrite app_nil_r; reflexivity|].
  eexists. reflexivity.
Qed.

Lemma dict_set_new acc k v : ~ In k (map fst acc) -> dict_set acc k v = acc ++ [(k, v)].
Proof.
  induction acc as [|[k' v'] acc IH]; intros H; [reflexivity|]. simpl in *.
  destruct (str_eqb k k') eqn:E.
  - apply Strip.str_eqb_true in E. subst. tauto.
  - rewrite IH; auto.
Qed.

Lemma skip_ws_space X : skip_ws (" "%char :: X) = skip_ws X.
Proof. reflexivity. Qed.

Lemma pelems_rt l : Forall RT l -> forallb jwf l = true -> forall acc n r, l <> [] ->
  list_sum (map (fun x => S (jsize x)) l) < n ->
  pelems n acc (join_with (lit ", ") (map dumps l) ++ chr 93 :: r) = Some (JArr (acc ++ l), r).
Proof.
  induction l as [|x l IH]; intros HF Hw acc n r Hne Hn; [congruence|].
  inversion HF as [|? ? Hx HF']; subst. simpl in Hw. apply andb_true_iff in Hw as [Hwx Hwl].
  destruct n as [|n]; [simpl in Hn; lia|]. rewrite pelems_step.
  destruct l as [|y l'].
  - simpl map. simpl join_with. rewrite (Hx Hwx n (chr 93 :: r)) by (simpl in Hn; lia || reflexivity).
    reflexivity.
  - change (join_with (lit ", ") (map dumps (x :: y :: l')))
      with (dumps x ++ lit ", " ++ join_with (lit ", ") (map dumps (y :: l'))).
    rewrite <- app_assoc.
    change (list_sum (map (fun x => S (jsize x)) (x :: y :: l')))
      with (S (jsize x) + list_sum (map (fun x => S (jsize x)) (y :: l'))) in Hn.
    rewrite (Hx Hwx n) by (lia || reflexivity).
    remember (join_with (lit ", ") (map dumps (y :: l'))) as J eqn:EJ.
    simpl skip_ws. cbv iota beta. replace (ceq "," 93) with false by reflexivity.
    replace (ceq "," 44) with true by reflexivity.
    destruct (join_cons_app (lit ", ") (dumps y) (map dumps l')) as [t Et].
    simpl map in EJ. rewrite Et in EJ. subst J. rewrite <- app_assoc.
    pose proof Hwl as Hwl0. simpl in Hwl. apply andb_true_iff in Hwl as [Hwy _].
    rewrite skip_ws_space, skip_ws_dumps by exact Hwy. rewrite app_assoc.
    rewrite IH; [rewrite <- app_assoc; reflexivity | exact HF' | exact Hwl0 | congruence | lia].
Qed.

Lemma skip_ws_comma X : skip_ws (lit ", " ++ X) = ","%char :: " "%char :: X.
Proof. reflexivity. Qed.

Lemma skip_ws_entries kvs X : kvs <> [] ->
  skip_ws (join_with (lit ", ") (map entry kvs) ++ X) = join_with (lit ", ") (map entry kvs) ++ X.
Proof.
  intros H. destruct kvs as [|[k x] kvs]; [congruence|].
  destruct (join_cons_app (lit ", ") (entry (k, x)) (map entry kvs)) as [t Et].
  change (map entry ((k, x) :: kvs)) with (entry (k, x) :: map entry kvs).
  rewrite Et. unfold entry. rewrite <- !app_assoc, quote_app. reflexivity.
Qed.

Lemma not_in_keys k (kvs : list (pystr * jvalue)) :
  negb (mem_str k (map fst kvs)) = true -> ~ In k (map fst kvs).
Proof.
  intros H Hin. apply Strip.mem_str_In in Hin. rewrite Hin in H. discriminate.
Qed.

Lemma pmembers_rt kvs : Forall (fun kv => RT (snd kv)) kvs ->
  forallb (fun kv => match kv with (_, x) => jwf x end) kvs = true ->
  keys_nodup kvs = true ->
  forall acc n r, kvs <> [] ->
  (forall k, In k (map fst kvs) -> ~ In k (map fst acc)) ->
  list_sum (map (fun kv => match kv with (_, x) => S (jsize x) end) kvs) < n ->
  pmembers n acc (join_with (lit ", ") (map entry kvs) ++ chr 125 :: r) = Some (JObj (acc ++ kvs), r).
Proof.
  induction kvs as [|[k x] kvs IH]; intros HF Hw Hk acc n r Hne Hacc Hn; [congruence|].
  inversion HF as [|? ? Hx HF']; subst. simpl in Hx.
  pose proof Hw as Hw0. simpl in Hw. apply andb_true_iff in Hw as [Hwx Hwl].
  simpl in Hk. apply andb_true_iff in Hk as [Hk1 Hk2].
  destruct n as [|n]; [simpl in Hn; lia|].
  assert (Hnew : ~ In k (map fst acc)) by (apply Hacc; left; reflexivity).
  destruct kvs as [|[k2 y] kvs'].
  - change (join_with (lit ", ") (map entry [(k, x)])) with (entry (k, x)).
    unfold entry. rewrite <- !app_assoc, pmembers_step.
    rewrite skip_ws_dumps by exact Hwx.
    rewrite (Hx Hwx n (chr 125 :: r)) by (simpl in Hn; lia || reflexivity).
    cbv iota beta zeta. replace (skip_ws (chr 125 :: r)) with (chr 125 :: r) by reflexivity.
    replace (ceq (chr 125) 125) with true by reflexivity.
    rewrite dict_set_new by exact Hnew. reflexivity.
  - change (join_with (lit ", ") (map entry ((k, x) :: (k2, y) :: kvs')))
      with (entry (k, x) ++ lit ", " ++ join_with (lit ", ") (map entry ((k2, y) :: kvs'))).
    change (list_sum (map (fun kv => match kv with (_, x) => S (jsize x) end) ((k, x) :: (k2, y) :: kvs')))
      with (S (jsize x) + list_sum (map (fun kv => match kv with (_, x) => S (jsize x) end) ((k2, y) :: kvs'))) in Hn.
    unfold entry at 1. rewrite <- !app_assoc, pmembers_step.
    rewrite skip_ws_dumps by exact Hwx.
    rewrite (Hx Hwx n) by (lia || reflexivity).
    cbv iota beta zeta. rewrite skip_ws_comma.
    replace (ceq "," 125) with false by reflexivity.
    replace (ceq "," 44) with true by reflexivity.
    rewrite skip_ws_space, skip_ws_entries by congruence.
    rewrite dict_set_new by exact Hnew.
    rewrite IH; [rewrite <- app_assoc; reflexivity | exact HF' | exact Hwl | exact Hk2
                | congruence | | lia].
    intros k' Hk' Hin. rewrite map_app, in_app_iff in Hin. destruct Hin as [Hin|Hin].
    + apply (Hacc k'); [right; exact Hk' | exact Hin].
    + simpl in Hin. destruct Hin as [<-|[]]. apply (not_in_keys _ _ Hk1). exact Hk'.
Qed.

Lemma pvalue_obj_rt kvs : Forall (fun kv => RT (snd kv)) kvs -> jwf (JObj kvs) = true ->
  forall n r, jsize (JObj kvs) < n -> pvalue n (dumps (JObj kvs) ++ r) = Some (JObj kvs, r).
Proof.
  intros HF Hw n r Hn. destruct n as [|n]; [simpl in Hn; lia|].
    change (dumps (JObj kvs)) with (chr 123 :: join_with (lit ", ") (map entry kvs) ++ [chr 125]).
    rewrite <- app_comm_cons, <- app_assoc.
    rewrite pvalue_obj_step. simpl in Hn. simpl in Hw. apply andb_true_iff in Hw as [Hk Hw].
    destruct kvs as [|[k x] kvs']; [reflexivity|].
    change ([chr 125] ++ r) with (chr 125 :: r).
    rewrite skip_ws_entries by congruence.
    assert (ES : exists S', join_with (lit ", ") (map entry ((k, x) :: kvs')) = chr 34 :: S').
    { destruct (join_cons_app (lit ", ") (entry (k, x)) (map entry kvs')) as [t Et].
      change (map entry ((k, x) :: kvs')) with (entry (k, x) :: map entry kvs').
      rewrite Et. unfold entry. rewrite quote_app. eexists. reflexivity. }
    destruct ES as [S' ES]. rewrite ES, <- app_comm_cons. cbv iota beta.
    replace (ceq (chr 34) 125) with false by reflexivity.
    rewrite app_comm_cons, <- ES.
    rewrite pmembers_rt; [reflexivity | exact HF | exact Hw | exact Hk | congruence
                         | intros ? _ [] | lia].
Qed.

Lemma pvalue_dumps : forall v, RT v.
Proof.
  apply jvalue_ind'; unfold RT.
  - intros _ n r Hn _. destruct n as [|n]; [simpl in Hn; lia|]. reflexivity.
  - intros [] _ n r Hn _; (destruct n as [|n]; [simpl in Hn; lia|]); reflexivity.
  - intros z _ n r Hn Hr. destruct n as [|n]; [simpl in Hn; lia|]. apply pvalue_int, Hr.
  - intros l H. discriminate.
  - intros s _ n r Hn _. destruct n as [|n]; [simpl in Hn; lia|].
    unfold dumps. rewrite quote_app. simpl. rewrite pstring_quote. reflexivity.
  - intros l HF Hw n r Hn Hr. destruct n as [|n]; [simpl in Hn; lia|].
    change (dumps (JArr l)) with (chr 91 :: join_with (lit ", ") (map dumps l) ++ [chr 93]).
    rewrite <- app_comm_cons, <- app_assoc.
    rewrite pvalue_arr_step. simpl in Hn. simpl in Hw.
    destruct l as [|x l']; [reflexivity|].
    destruct (join_cons_app (lit ", ") (dumps x) (map dumps l')) as [t Et].
    assert (Hwx : jwf x = true) by (simpl in Hw; apply andb_true_iff in Hw; tauto).
    destruct (dumps_head x Hwx) as [c [t' [Ec [H1 [H2 _]]]]].
    replace (skip_ws (join_with (lit ", ") (map dumps (x :: l')) ++ [chr 93] ++ r))
      with (join_with (lit ", ") (map dumps (x :: l')) ++ [chr 93] ++ r)
      by (simpl map; rewrite Et, <- app_assoc, skip_ws_dumps by exact Hwx; reflexivity).
    simpl map. rewrite Et, Ec. simpl (_ ++ _). cbv iota beta. rewrite H2.
    change (c :: (t' ++ t) ++ chr 93 :: r) with (((c :: t') ++ t) ++ chr 93 :: r).
    rewrite <- Ec, <- Et.
    change (dumps x :: map dumps l') with (map dumps (x :: l')).
    rewrite pelems_rt; [reflexivity | exact HF | exact Hw | congruence | lia].
  - intros kvs HF Hw n r Hn _. apply pvalue_obj_rt; assumption.
Qed.

Lemma length_join_app sep a xs : exists t, join_with sep (a :: xs) = a ++ t /\
  (xs = [] -> t = []) /\ (xs <> [] -> length t = length sep + length (join_with sep xs)).
Proof.
  destruct xs as [|b xs].
  - exists []. rewrite app_nil_r. repeat split; congruence.
  - eexists. split; [reflexivity|]. split; [congruence|]. intros _.
    rewrite length_app. reflexivity.
Qed.

Lemma jsize_dumps : forall v, jwf v = true -> jsize v <= length (dumps v).
Proof.
  apply (jvalue_ind' (fun v => jwf v = true -> jsize v <= length (dumps v))).
  - intros _. apply Nat.leb_le. reflexivity.
  - intros [] _; apply Nat.leb_le; reflexivity.
  - intros z _. simpl. unfold int_str. destruct (z <? 0)%Z; simpl; [lia|].
    destruct (uint_head _ (to_uint_lead (Z.to_N z))) as [c [t [E _]]]. rewrite E. simpl. lia.
  - intros l H. discriminate.
  - intros s _. simpl. unfold quote. simpl. lia.
  - intros l HF Hw. simpl in Hw.
    change (dumps (JArr l)) with (chr 91 :: join_with (lit ", ") (map dumps l) ++ [chr 93]).
    change (jsize (JArr l)) with (S (list_sum (map (fun x => S (jsize x)) l))).
    rewrite length_cons, length_app. simpl (length [_]).
    assert (A : list_sum (map (fun x => S (jsize x)) l) <=
                length (join_with (lit ", ") (map dumps l)) + 1); [|lia].
    induction l as [|x l IH]; [simpl; lia|].
    inversion HF as [|? ? Hx HF']; subst. apply andb_true_iff in Hw as [Hwx Hwl].
    specialize (Hx Hwx). specialize (IH HF' Hwl).
    destruct (length_join_app (lit ", ") (dumps x) (map dumps l)) as [t [Et [T1 T2]]].
    change (map dumps (x :: l)) with (dumps x :: map dumps l). rewrite Et, length_app.
    simpl (list_sum _). destruct l as [|y l]; [rewrite T1 by reflexivity; simpl; lia|].
    rewrite T2 by discriminate. change (length (lit ", ")) with 2. lia.
  - intros kvs HF Hw. simpl in Hw. apply andb_true_iff in Hw as [_ Hw].
    change (dumps (JObj kvs)) with (chr 123 :: join_with (lit ", ") (map entry kvs) ++ [chr 125]).
    change (jsize (JObj kvs))
      with (S (list_sum (map (fun kv => match kv with (_, x) => S (jsize x) end) kvs))).
    rewrite length_cons, length_app. simpl (length [_]).
    assert (A : list_sum (map (fun kv => match kv with (_, x) => S (jsize x) end) kvs) <=
                length (join_with (lit ", ") (map entry kvs)) + 1); [|lia].
    induction kvs as [|[k x] kvs IH]; [simpl; lia|].
    inversion HF as [|? ? Hx HF']; subst. simpl in Hx. apply andb_true_iff in Hw as [Hwx Hwl].
    specialize (Hx Hwx). specialize (IH HF' Hwl).
    destruct (length_join_app (lit ", ") (entry (k, x)) (map entry kvs)) as [t [Et [T1 T2]]].
    change (map entry ((k, x) :: kvs)) with (entry (k, x) :: map entry kvs). rewrite Et, length_app.
    assert (Le : S (jsize x) <= length (entry (k, x))).
    { unfold entry. rewrite !length_app. unfold quote. simpl. lia. }
    simpl (list_sum _). destruct kvs as [|[k2 y] kvs];
      [rewrite T1 by reflexivity; cbn [list_sum map length fold_right]; lia|].
    rewrite T2 by discriminate. change (length (lit ", ")) with 2. lia.
Qed.

Lemma loads_dumps v : jwf v = true -> loads (dumps v) = Some v.
Proof.
  intros Hw. unfold loads. rewrite <- (app_nil_r (dumps v)).
  rewrite skip_ws_dumps by exact Hw.
  rewrite pvalue_dumps; [reflexivity | exact Hw | | reflexivity].
  rewrite app_nil_r. pose proof (jsize_dumps v Hw). lia.
Qed.


Lemma nf_app a : forall k b, nf k (a ++ b) = nf k a && nf (tr k a) b.
Proof.
  induction a as [|c a IH]; intros k b; [reflexivity|].
  simpl. destruct (is_bt c); [|apply IH]. destruct k as [|[|k]]; [apply IH|apply IH|reflexivity].
Qed.

Lemma bt_eq c : is_bt c = true -> c = "`"%char.
Proof.
  unfold is_bt, ceq, code. intros H. apply Nat.eqb_eq in H.
  rewrite <- (ascii_nat_embedding c), H. reflexivity.
Qed.

Lemma af_nonbt c r : is_bt c = false -> after_fence (c :: r) = after_fence r.
Proof.
  intros H. destruct r as [|b [|d r]]; simpl; try reflexivity. rewrite H. reflexivity.
Qed.

Lemma af_nonbt2 x c r : is_bt c = false -> after_fence (x :: c :: r) = after_fence r.
Proof.
  intros H. destruct r as [|b r]; [reflexivity|].
  change (after_fence (x :: c :: b :: r)) with
    (if is_bt x && is_bt c && is_bt b then Some r else after_fence (c :: b :: r)).
  rewrite H, andb_false_r, andb_false_l. exact (af_nonbt c (b :: r) H).
Qed.

Lemma af_nonbt3 x y c r : is_bt c = false -> after_fence (x :: y :: c :: r) = after_fence r.
Proof.
  intros H.
  change (after_fence (x :: y :: c :: r)) with
    (if is_bt x && is_bt y && is_bt c then Some r else after_fence (y :: c :: r)).
  rewrite H, andb_false_r. exact (af_nonbt2 y c r H).
Qed.

Lemma nf_af_k s : forall k, k <= 2 ->
  (nf k s = true <-> after_fence (repeat "`"%char k ++ s) = None).
Proof.
  induction s as [|c r IH]; intros k Hk.
  - destruct k as [|[|[|k]]]; [..|lia]; simpl; split; auto.
  - simpl nf. case_eq (is_bt c); intros Hc.
    + apply bt_eq in Hc. subst c.
      destruct k as [|[|[|k]]]; [..|lia].
      * simpl (2 <=? 0). rewrite (IH 1) by lia. reflexivity.
      * simpl (2 <=? 1). rewrite (IH 2) by lia. reflexivity.
      * simpl. split; discriminate.
    + rewrite (IH 0) by lia. simpl (repeat _ 0 ++ _).
      destruct k as [|[|[|k]]]; [..|lia]; simpl (repeat _ _ ++ _).
      * rewrite af_nonbt by exact Hc. reflexivity.
      * rewrite af_nonbt2 by exact Hc. reflexivity.
      * rewrite af_nonbt3 by exact Hc. reflexivity.
Qed.

Lemma nf_af s : nf 0 s = true <-> after_fence s = None.
Proof. apply (nf_af_k s 0). lia. Qed.

Lemma strip_fences_id n : forall s, after_fence s = None -> strip_fences_n n s = s.
Proof.
  induction n as [|n IH]; intros s H; [reflexivity|].
  destruct s as [|a [|b [|c r]]]; try reflexivity.
  simpl. simpl in H. destruct (is_bt a && is_bt b && is_bt c); [discriminate|].
  rewrite IH by exact H. reflexivity.
Qed.

Lemma esc_char c : esc_out c = [c] \/
  (is_bt c = false /\ exists d e, esc_out c = d :: e /\ is_bt d = false /\
     forallb (fun x => negb (is_bt x)) e = true).
Proof.
  destruct c as [[] [] [] [] [] [] [] []];
    first [left; reflexivity
          | right; split; [reflexivity|]; eexists; eexists; split; [reflexivity|]; split; reflexivity].
Qed.

Lemma nf_nobt0 e : forallb (fun x => negb (is_bt x)) e = true -> forall r, nf 0 (e ++ r) = nf 0 r.
Proof.
  induction e as [|x e IH]; intros H r; [reflexivity|].
  simpl in H |- *. apply andb_true_iff in H as [H1 H2].
  destruct (is_bt x); [discriminate|]. apply IH, H2.
Qed.

Lemma nf_nobt d e : is_bt d = false -> forallb (fun x => negb (is_bt x)) e = true ->
  forall k r, nf k (d :: e ++ r) = nf 0 r.
Proof. intros Hd He k r. simpl. rewrite Hd. apply nf_nobt0, He. Qed.

Lemma nf_nonbt c r k : is_bt c = false -> nf k (c :: r) = nf 0 r.
Proof. intros H. simpl. rewrite H. reflexivity. Qed.

Lemma nf_esc s : forall k r, nf k (flat_map esc_out s ++ r) = nf k (s ++ r).
Proof.
  induction s as [|c s IH]; intros k r; [reflexivity|].
  simpl flat_map. rewrite <- app_assoc.
  destruct (esc_char c) as [E|[Hc [d [e [E [Hd He]]]]]]; rewrite E.
  - simpl (_ ++ _). simpl. destruct (is_bt c); [|apply IH].
    destruct k as [|[|k]]; [apply IH|apply IH|reflexivity].
  - simpl (_ ++ _). rewrite nf_nobt by assumption. rewrite (IH 0 r).
    simpl. rewrite Hc. reflexivity.
Qed.

Lemma nf_quote s r k : nf k (quote s ++ r) = nf 0 s && nf 0 r.
Proof.
  unfold quote. simpl (_ ++ _). rewrite nf_nonbt by reflexivity.
  rewrite <- app_assoc, nf_esc, nf_app. simpl (_ ++ _).
  rewrite (nf_nonbt (chr 34)) by reflexivity. reflexivity.
Qed.

Lemma nf_join ts : forallb (nf 0) ts = true -> forall r, (forall k, nf k r = nf 0 r) ->
  forall k, nf k (join_with (lit ", ") (map quote ts) ++ r) = nf 0 r.
Proof.
  intros Hts r Hr. induction ts as [|t ts IH]; intros k; [apply Hr|].
  simpl in Hts. apply andb_true_iff in Hts as [Ht Hts]. specialize (IH Hts).
  destruct ts as [|t' ts].
  - simpl (join_with _ _). rewrite nf_quote, Ht. reflexivity.
  - change (join_with (lit ", ") (map quote (t :: t' :: ts)))
      with (quote t ++ lit ", " ++ join_with (lit ", ") (map quote (t' :: ts))).
    rewrite <- !app_assoc, nf_quote, Ht. simpl (lit ", " ++ _).
    rewrite !nf_nonbt by reflexivity. apply IH.
Qed.

Lemma dumps_publish p : dumps (publish_dump p) =
  chr 123 :: quote (lit "tags") ++ lit ": " ++ chr 91 ::
  join_with (lit ", ") (map quote (tags p)) ++ chr 93 :: lit ", " ++
  quote (lit "summary") ++ lit ": " ++ quote (summary p) ++ [chr 125].
Proof.
  unfold publish_dump. cbn [dumps map join_with]. rewrite map_map.
  change (map (fun x => dumps (JStr x)) (tags p)) with (map quote (tags p)).
  rewrite <- !app_assoc, <- app_comm_cons, <- !app_assoc. reflexivity.
Qed.

Lemma nf_dumps_publish p : forallb (nf 0) (tags p) = true -> nf 0 (summary p) = true ->
  nf 0 (dumps (publish_dump p)) = true.
Proof.
  intros Ht Hs. rewrite dumps_publish.
  rewrite nf_nonbt, nf_quote by reflexivity. simpl (nf 0 (lit "tags")).
  simpl (lit ": " ++ _). rewrite andb_true_l, !nf_nonbt by reflexivity.
  rewrite nf_join; [|exact Ht|].
  - rewrite nf_nonbt by reflexivity. simpl (lit ", " ++ _). rewrite !nf_nonbt by reflexivity.
    rewrite <- app_assoc, nf_esc, nf_app, Hs. simpl (_ ++ _).
    rewrite nf_nonbt by reflexivity. reflexivity.
  - intros k. rewrite !(nf_nonbt (chr 93)) by reflexivity. reflexivity.
Qed.

Lemma py_strip_braced a M b : py_isspace a = false -> py_isspace b = false ->
  py_strip (a :: M ++ [b]) = a :: M ++ [b].
Proof.
  intros Ha Hb. unfold py_strip, rstrip_with. simpl lstrip_with at 2. rewrite Ha.
  rewrite app_comm_cons, rev_app_distr. change (rev [b] ++ rev (a :: M)) with (b :: rev (a :: M)).
  simpl (lstrip_with _ (b :: _)). rewrite Hb.
  change (rev (b :: rev M ++ [a])) with (rev (rev M ++ [a]) ++ [b]). rewrite rev_app_distr, rev_involutive. reflexivity.
Qed.

Lemma jwf_publish p : jwf (publish_dump p) = true.
Proof.
  unfold publish_dump. simpl. rewrite andb_true_r.
  induction (tags p) as [|t ts IH]; [reflexivity|exact IH].
Qed.



































End Roundtrip.

Module Coverage.
Import Tokens Runs Joined Strip RepairProps Roundtrip.

(** [extract_json]: the scan only cuts slices that start with a brace, and
    a text starting with a brace only loads as an object. *)
Lemma skipn_cons_nth (text : pystr) : forall i ch rest, skipn i text = ch :: rest ->
  nth_error text i = Some ch /\ skipn (S i) text = rest.
Proof.
  induction text as [|x text IH]; intros i ch rest H.
  - destruct i; discriminate.
  - destruct i; simpl in H |- *.
    + injection H as -> ->. auto.
    + apply IH. exact H.
Qed.

Lemma nth_skipn (text : pystr) : forall st x, nth_error text st = Some x ->
  exists t, skipn st text = x :: t.
Proof.
  induction text as [|y text IH]; intros st x H.
  - destruct st; discriminate.
  - destruct st; simpl in H |- *.
    + injection H as ->. eauto.
    + apply IH. exact H.
Qed.

Lemma ceq_chr c n : ceq c n = true -> n < 256 -> c = chr n.
Proof.
  unfold ceq, code, chr. intros H _. apply Nat.eqb_eq in H. subst n.
  symmetry. apply ascii_nat_embedding.
Qed.

Lemma scan_open text : forall rest i depth start c,
  rest = skipn i text ->
  (forall st, start = Some st -> st < i /\ nth_error text st = Some (chr 123)) ->
  In c (scan text i rest depth start) -> exists c', c = chr 123 :: c'.
Proof.
  induction rest as [|ch rest IH]; intros i depth start c Hr Hs Hin; [destruct Hin|].
  symmetry in Hr. apply skipn_cons_nth in Hr as [Hn Hr]. symmetry in Hr.
  simpl in Hin.
  destruct (ceq ch 123) eqn:E1.
  - eapply IH; [exact Hr| |exact Hin].
    intros st Hst. destruct (depth =? 0).
    + injection Hst as <-. apply ceq_chr in E1; [|lia]. subst ch. split; [lia|exact Hn].
    + destruct (Hs st Hst). split; [lia|assumption].
  - assert (Hs' : forall st, start = Some st -> st < S i /\ nth_error text st = Some (chr 123)).
    { intros st Hst. destruct (Hs st Hst). split; [lia|assumption]. }
    destruct (ceq ch 125).
    + destruct depth as [|[|d]].
      * eapply IH; eauto.
      * destruct start as [st|].
        -- destruct Hin as [<-|Hin]; [|eapply IH; eauto].
           destruct (Hs st eq_refl) as [Hlt Hst].
           apply nth_skipn in Hst as [t Ht]. unfold slice. rewrite Ht.
           replace (S i - st) with (S (i - st)) by lia. simpl. eauto.
        -- eapply IH; eauto.
      * eapply IH; eauto.
    + eapply IH; eauto.
Qed.

Lemma cands_open text c : In c (candidates text) -> exists c', c = chr 123 :: c'.
Proof.
  unfold candidates. apply scan_open; [reflexivity|discriminate].
Qed.

Lemma pmembers_obj n : forall acc s v r, pmembers n acc s = Some (v, r) -> exists d, v = JObj d.
Proof.
  induction n as [|n IH]; intros acc s v r H; [discriminate|].
  destruct s as [|c s]; [discriminate|].
  cbn [pmembers] in H.
  destruct (ceq c 34); [|discriminate].
  destruct (pstring s) as [[k r1]|]; [|discriminate].
  destruct (skip_ws r1) as [|c2 r2]; [discriminate|].
  destruct (ceq c2 58); [|discriminate].
  destruct (pvalue n (skip_ws r2)) as [[v3 r3]|]; [|discriminate].
  destruct (skip_ws r3) as [|c4 r4]; [discriminate|].
  destruct (ceq c4 125); [injection H as <- _; eauto|].
  destruct (ceq c4 44); [eapply IH; exact H|discriminate].
Qed.

Lemma loads_open c' v : loads (chr 123 :: c') = Some v -> exists d, v = JObj d.
Proof.
  unfold loads. cbn [skip_ws length].
  replace (is_json_ws (chr 123)) with false by reflexivity.
  cbn [pvalue]. replace (ceq (chr 123) 34) with false by reflexivity.
  replace (ceq (chr 123) 123) with true by reflexivity.
  destruct (skip_ws c') as [|c1 r1]; [discriminate|].
  destruct (ceq c1 125).
  - destruct (skip_ws r1); [intro H; injection H as <-; eauto|intro H; discriminate].
  - destruct (pmembers (S (length c')) [] (c1 :: r1)) as [[w r]|] eqn:E; [|intro H; discriminate].
    apply pmembers_obj in E as [d ->].
    destruct (skip_ws r); [intro H; injection H as <-; eauto|intro H; discriminate].
Qed.

Lemma first_loads_in cs v : first_loads cs = Some v -> exists c, In c cs /\ loads c = Some v.
Proof.
  induction cs as [|c cs IH]; simpl; [discriminate|].
  destruct (loads c) eqn:E.
  - intro H. injection H as <-. eauto.
  - intro H. destruct (IH H) as [c0 [Hi Hl]]. eauto.
Qed.

(** Fence removal. *)
Lemma af_close x r : after_fence (x ++ lit "``") = None ->
  after_fence (x ++ lit "```" ++ r) = Some r.
Proof.
  induction x as [|a x IH]; intro H; [reflexivity|].
  destruct x as [|b [|c x]].
  - simpl in H |- *. destruct (is_bt a); [discriminate|reflexivity].
  - simpl in H |- *. destruct (is_bt a && is_bt b); [discriminate|].
    destruct (is_bt b); [discriminate|reflexivity].
  - change ((a :: b :: c :: x) ++ lit "```" ++ r) with (a :: b :: c :: (x ++ lit "```" ++ r)).
    change ((a :: b :: c :: x) ++ lit "``") with (a :: b :: c :: (x ++ lit "``")) in H.
    cbn [after_fence] in H |- *.
    destruct (is_bt a && is_bt b && is_bt c); [discriminate|].
    apply IH. exact H.
Qed.

Lemma af_len s : forall r, after_fence s = Some r -> length r + 3 <= length s.
Proof.
  induction s as [|a s IH]; intros r H; [discriminate|].
  destruct s as [|b [|c s]]; try discriminate.
  cbn [after_fence] in H.
  destruct (is_bt a && is_bt b && is_bt c).
  - injection H as <-. simpl. lia.
  - apply IH in H. simpl in *. lia.
Qed.

Lemma strip_fuel n : forall m s, length s <= n -> length s <= m ->
  strip_fences_n n s = strip_fences_n m s.
Proof.
  induction n as [|n IH]; intros m s Hn Hm.
  - destruct s; [destruct m; reflexivity|simpl in Hn; lia].
  - destruct m as [|m]; [destruct s; [reflexivity|simpl in Hm; lia]|].
    destruct s as [|a [|b [|c r]]]; try reflexivity.
    cbn [strip_fences_n].
    destruct (is_bt a && is_bt b && is_bt c).
    + destruct (after_fence r) as [r'|] eqn:E.
      * apply af_len in E. apply IH; simpl in *; lia.
      * f_equal. apply IH; simpl in *; lia.
    + f_equal. apply IH; simpl in *; lia.
Qed.

Lemma strip_step n a b c r : strip_fences_n (S n) (a :: b :: c :: r) =
  if is_bt a && is_bt b && is_bt c then
    match after_fence r with
    | Some r' => strip_fences_n n r'
    | None => a :: strip_fences_n n (b :: c :: r)
    end
  else a :: strip_fences_n n (b :: c :: r).
Proof. reflexivity. Qed.

Lemma strip_fences_lead x r : after_fence (x ++ lit "``") = None ->
  strip_fences (lit "```" ++ x ++ lit "```" ++ r) = strip_fences r.
Proof.
  intro H. unfold strip_fences.
  change (lit "```" ++ x ++ lit "```" ++ r)
    with ("`"%char :: "`"%char :: "`"%char :: (x ++ lit "```" ++ r)).
  cbn [length]. rewrite strip_step.
  replace (is_bt "`" && is_bt "`" && is_bt "`") with true by reflexivity.
  rewrite (af_close x r H).
  apply strip_fuel; [|lia].
  rewrite !length_app. lia.
Qed.

(** [word_count] on concatenations; the truncation of the summary. *)
Lemma wr_split c b : in_cls c = false -> forall a seen,
  word_runs_from seen (a ++ c :: b) = word_runs_from seen a + word_runs_from false b.
Proof.
  intros Hc a. induction a as [|x a IH]; intro seen; simpl.
  - rewrite (noncls_noword c Hc), Hc. reflexivity.
  - destruct (is_word x); [destruct seen; rewrite IH; reflexivity|].
    destruct (in_cls x); apply IH.
Qed.

Lemma wr_prefix b : forall a seen, word_runs_from seen a <= word_runs_from seen (a ++ b).
Proof.
  induction a as [|x a IH]; intro seen; simpl; [lia|].
  destruct (is_word x); [destruct seen; specialize (IH true); lia|].
  destruct (in_cls x); apply IH.
Qed.

Lemma wc_split a c b : in_cls c = false ->
  word_count (a ++ c :: b) = word_count a + word_count b.
Proof. intro Hc. rewrite !word_count_runs. apply wr_split; exact Hc. Qed.

Lemma wc_prefix a b : word_count a <= word_count (a ++ b).
Proof. rewrite !word_count_runs. apply wr_prefix. Qed.

Lemma rstrip_prefix p s : exists t, s = rstrip_with p s ++ t.
Proof.
  unfold rstrip_with. destruct (lstrip_split p (rev s)) as [pre E]. exists (rev pre).
  rewrite <- rev_app_distr, <- E, rev_involutive. reflexivity.
Qed.

Lemma truncate_cap s : word_count (truncate_summary s) <= 25 /\
  (word_count s <= 25 -> truncate_summary s = s).
Proof.
  unfold truncate_summary. destruct (25 <? length (word_tokens s)) eqn:E.
  - apply Nat.ltb_lt in E. split.
    + destruct (rstrip_prefix trail_strip_char (join_sp (firstn 25 (word_tokens s)))) as [t Et].
      eapply Nat.le_trans; [apply (wc_prefix _ t)|]. rewrite <- Et. apply fallback_summary_cap.
    + unfold word_count. lia.
  - apply Nat.ltb_ge in E. split; [exact E|reflexivity].
Qed.

(** The repair loops: non-blank tags, counting, first tags kept. *)
Definition nbt (t : pystr) : Prop := nonblank t = true.

Lemma dedup_nb so l : forall seen uniq, Forall nbt uniq ->
  Forall nbt (snd (dedup so l seen uniq)).
Proof.
  induction l as [|v l IH]; intros seen uniq H; cbn [dedup]; [exact H|].
  destruct (negb (is_nil (py_strip (str_of so v)))
            && negb (mem_str (py_lower (py_strip (str_of so v))) seen)) eqn:E;
    apply IH; [|exact H].
  apply Forall_app; split; [exact H|]. constructor; [|constructor].
  apply andb_true_iff in E as [E _]. unfold nbt, nonblank. rewrite py_strip_idem. exact E.
Qed.

Lemma topup_nb l : Forall nbt l -> forall seen uniq, Forall nbt uniq ->
  Forall nbt (snd (topup l seen uniq)).
Proof.
  induction l as [|t l IH]; intros Hl seen uniq Hu; cbn [topup]; [exact Hu|].
  inversion Hl as [|? ? Ht Hl']; subst.
  destruct (mem_str (py_lower t) seen); cbn [negb].
  - destruct (length uniq =? 3); [exact Hu|apply IH; auto].
  - assert (Hu' : Forall nbt (uniq ++ [t])) by (apply Forall_app; auto).
    destruct (length (uniq ++ [t]) =? 3); [exact Hu'|apply IH; auto].
Qed.

Lemma nodup_map_filter {A B} (f : A -> B) p l : NoDup (map f l) -> NoDup (map f (filter p l)).
Proof.
  induction l as [|x l IH]; simpl; intro H; [constructor|].
  inversion H as [|? ? Hx Hl]; subst.
  destruct (p x); simpl; [constructor|]; auto.
  intro Hin. apply Hx. apply in_map_iff in Hin as [y [Hy Hyi]].
  apply filter_In in Hyi as [Hyi _]. rewrite <- Hy. apply in_map. exact Hyi.
Qed.

Lemma filter_split {A} (p : A -> bool) l :
  length (filter p l) + length (filter (fun x => negb (p x)) l) = length l.
Proof. induction l as [|a l IH]; simpl; [reflexivity|]. destruct (p a); simpl; lia. Qed.

Lemma topup_three l : forall seen uniq, NoDup (map py_lower l) -> length uniq < 3 ->
  3 <= length uniq + length (filter (fun t => negb (mem_str (py_lower t) seen)) l) ->
  length (snd (topup l seen uniq)) = 3.
Proof.
  induction l as [|t l IH]; intros seen uniq Hd Hlt Hc; cbn [filter length] in Hc; [lia|].
  cbn [map] in Hd. inversion Hd as [|? ? Hni Hd']; subst.
  cbn [topup].
  destruct (mem_str (py_lower t) seen) eqn:Em; cbn [negb] in *.
  - destruct (length uniq =? 3) eqn:E3; [apply Nat.eqb_eq in E3; lia|].
    apply IH; auto.
  - cbn [length] in Hc. rewrite length_app. cbn [length].
    destruct (length uniq + 1 =? 3) eqn:E3.
    + apply Nat.eqb_eq in E3. cbn [snd]. rewrite length_app. cbn [length]. lia.
    + apply Nat.eqb_neq in E3. apply IH; [exact Hd'|rewrite length_app; cbn [length]; lia|].
      rewrite length_app; cbn [length].
      assert (Ef : filter (fun t0 => negb (mem_str (py_lower t0) (py_lower t :: seen))) l
                   = filter (fun t0 => negb (mem_str (py_lower t0) seen)) l).
      2:{ rewrite Ef. lia. }
      apply filter_ext_in. intros t' Ht'. unfold mem_str. cbn [existsb].
      replace (str_eqb (py_lower t') (py_lower t)) with false; [reflexivity|].
      symmetry. apply not_true_iff_false. rewrite str_eqb_true. intros Heq.
      apply Hni. rewrite <- Heq. apply in_map. exact Ht'.
Qed.

Lemma seen_count l seen uniq : inv seen uniq -> NoDup (map py_lower l) ->
  length (filter (fun t => mem_str (py_lower t) seen) l) <= length uniq.
Proof.
  intros [Hs _] Hd. rewrite <- (length_map py_lower uniq), <- (length_map py_lower (filter _ l)).
  apply NoDup_incl_length; [apply nodup_map_filter; exact Hd|].
  intros x Hx. apply in_map_iff in Hx as [t [<- Ht]]. apply filter_In in Ht as [_ Ht].
  apply Hs, mem_str_In. exact Ht.
Qed.

Lemma repaired_three so rev d : reviewer_ok rev = true ->
  NoDup (map py_lower (approved_tags rev)) ->
  length (repaired_tags so rev d) = 3 /\ Forall nbt (repaired_tags so rev d).
Proof.
  intros Hr Hd. unfold reviewer_ok in Hr. apply andb_true_iff in Hr as [Hl Hb].
  apply Nat.eqb_eq in Hl.
  assert (Hb' : Forall nbt (approved_tags rev))
    by (apply Forall_forall; intros x Hx; exact (proj1 (forallb_forall _ _) Hb x Hx)).
  clear Hb; rename Hb' into Hb.
  unfold repaired_tags.
  pose proof (dedup_inv so (tags_candidates so rev d) [] [] inv_nil) as H1.
  pose proof (dedup_nb so (tags_candidates so rev d) [] [] (Forall_nil _)) as N1.
  destruct (dedup so (tags_candidates so rev d) [] []) as [seen uniq]. cbn [snd] in N1.
  destruct (length uniq <? 3) eqn:E.
  - apply Nat.ltb_lt in E.
    pose proof (topup_three (approved_tags rev) seen uniq Hd E) as T.
    pose proof (topup_nb (approved_tags rev) Hb seen uniq N1) as N2.
    destruct (topup (approved_tags rev) seen uniq) as [s2 u2]. cbn [snd] in T, N2.
    assert (T' : length u2 = 3).
    { apply T. pose proof (seen_count (approved_tags rev) seen uniq H1 Hd).
      pose proof (filter_split (fun t => mem_str (py_lower t) seen) (approved_tags rev)). lia. }
    split; [rewrite length_firstn; lia|].
    rewrite <- (firstn_skipn 3 u2) in N2. apply Forall_app in N2 as [N2 _]. exact N2.
  - apply Nat.ltb_ge in E. split; [rewrite length_firstn; lia|].
    rewrite <- (firstn_skipn 3 uniq) in N1. apply Forall_app in N1 as [N1 _]. exact N1.
Qed.

Lemma dedup_prefix so l : forall seen uniq, exists e, snd (dedup so l seen uniq) = uniq ++ e.
Proof.
  induction l as [|v l IH]; intros seen uniq; cbn [dedup].
  - exists []. rewrite app_nil_r. reflexivity.
  - destruct (_ && _).
    + destruct (IH (py_lower (py_strip (str_of so v)) :: seen) (uniq ++ [py_strip (str_of so v)]))
        as [e E].
      exists (py_strip (str_of so v) :: e). rewrite E, <- app_assoc. reflexivity.
    + apply IH.
Qed.

Lemma dedup_keep so v l seen uniq : py_strip (str_of so v) <> [] ->
  ~ In (py_lower (py_strip (str_of so v))) seen ->
  dedup so (v :: l) seen uniq =
  dedup so l (py_lower (py_strip (str_of so v)) :: seen) (uniq ++ [py_strip (str_of so v)]).
Proof.
  intros Hn Hs. cbn [dedup].
  destruct (py_strip (str_of so v)) as [|x y] eqn:E; [congruence|].
  cbn [is_nil negb andb].
  destruct (mem_str (py_lower (x :: y)) seen) eqn:M; [|reflexivity].
  apply mem_str_In in M. contradiction.
Qed.

(** Where the published tags come from. *)
Lemma firstn_Forall {A} (P : A -> Prop) n l : Forall P l -> Forall P (firstn n l).
Proof.
  intro H. rewrite <- (firstn_skipn n l) in H. apply Forall_app in H as [H _]. exact H.
Qed.

Lemma dedup_src so (P : pystr -> Prop) l : (forall v, In v l -> P (py_strip (str_of so v))) ->
  forall seen uniq, Forall P uniq -> Forall P (snd (dedup so l seen uniq)).
Proof.
  induction l as [|v l IH]; intros Hl seen uniq Hu; cbn [dedup]; [exact Hu|].
  destruct (_ && _); apply IH; auto using in_cons.
  apply Forall_app. split; [exact Hu|]. constructor; [|constructor]. apply Hl. left; reflexivity.
Qed.

Lemma topup_src (P : pystr -> Prop) l : (forall t, In t l -> P t) ->
  forall seen uniq, Forall P uniq -> Forall P (snd (topup l seen uniq)).
Proof.
  induction l as [|t l IH]; intros Hl seen uniq Hu; cbn [topup]; [exact Hu|].
  assert (Ht : P t) by (apply Hl; left; reflexivity).
  assert (Hl' : forall x, In x l -> P x) by (intros; apply Hl; right; assumption).
  destruct (mem_str (py_lower t) seen); cbn [negb].
  - destruct (length uniq =? 3); [exact Hu|apply IH; auto].
  - assert (Hu' : Forall P (uniq ++ [t])) by (apply Forall_app; auto).
    destruct (length (uniq ++ [t]) =? 3); [exact Hu'|apply IH; auto].
Qed.

Definition tag_source so rev d (t : pystr) : Prop :=
  In t (map (fun v => py_strip (str_of so v)) (tags_candidates so rev d)) \/
  In t (approved_tags rev).

Lemma repaired_src so rev d : Forall (tag_source so rev d) (repaired_tags so rev d).
Proof.
  unfold repaired_tags.
  pose proof (dedup_src so (tag_source so rev d) (tags_candidates so rev d)) as D.
  assert (D' : Forall (tag_source so rev d) (snd (dedup so (tags_candidates so rev d) [] []))).
  { apply D; [|constructor]. intros v Hv. left. apply in_map_iff. eauto. }
  destruct (dedup so (tags_candidates so rev d) [] []) as [seen uniq]. cbn [snd] in D'.
  destruct (length uniq <? 3).
  - pose proof (topup_src (tag_source so rev d) (approved_tags rev)) as T.
    assert (T' : Forall (tag_source so rev d) (snd (topup (approved_tags rev) seen uniq))).
    { apply T; [intros t Ht; right; exact Ht|exact D']. }
    destruct (topup (approved_tags rev) seen uniq) as [s2 u2]. apply firstn_Forall. exact T'.
  - apply firstn_Forall. exact D'.
Qed.

(** The stages of [run_pipeline]. *)
Lemma jwf_strs l : forallb jwf (map JStr l) = true.
Proof. induction l as [|t ts IH]; [reflexivity|exact IH]. Qed.



Lemma reviewer_stage_ok raw rv : stage reviewer_kwargs raw = Accepted rv -> reviewer_ok rv = true.
Proof.
  unfold stage. destruct (extract_json raw) as [[]|]; try discriminate.
  unfold reviewer_kwargs.
  match goal with |- context [dict_get ?d (lit "approved_tags")] =>
    destruct (dict_get d (lit "approved_tags")) as [t|], (dict_get d (lit "edited_summary")) as [s|]
  end; try discriminate.
  unfold reviewer_new.
  destruct (list_str_field t) as [l|], (str_field s) as [x|]; try discriminate.
  destruct ((length l =? 3) && forallb nonblank l) eqn:E; try discriminate.
  intro H. injection H as <-. exact E.
Qed.

End Coverage.

Module Claims.
Import Strip Joined RepairProps Roundtrip.

(** Concrete inputs. *)
Definition rev_abc : reviewer := mk_reviewer [lit "a"; lit "b"; lit "c"] (lit "s").
Definition rev_xxx : reviewer := mk_reviewer [lit "x"; lit "x"; lit "x"] (lit "s").
Definition rev_pad : reviewer := mk_reviewer [lit " b "; lit "c"; lit "d"] (lit "s").

(** A 26-token summary whose 25th token is the Latin-1 letter U+00E2. *)
Definition summary_26 : pystr := join_sp (repeat (lit "a") 24 ++ [[chr 226]; lit "b"]).

(** C1: the Finalizer text [[1]] parses as a JSON array, and [final_json.get]
    on it raises [AttributeError]: the run aborts in the Finalizing stage,
    whatever the reviewer result. *)
Theorem finalize_list_aborts so rev :
  finalize so rev (lit "[1]") = Raised AttributeError.
Proof.
  unfold finalize.
  replace (extract_json (lit "[1]")) with (Extracted (JArr [JInt 1%Z]))
    by (vm_compute; reflexivity).
  reflexivity.
Qed.

(** C2 (counterexample): with the reviewer tags [[x, x, x]] and the Finalizer
    text [{}], the published tags are [[x, x, x]] (not distinct); with the
    reviewer tags [[" b ", c, d]] and Finalizer tags [[a]], the top-up copies
    [" b "] untrimmed. *)
Lemma repair_tags_counterexample :
  finalize str_other_model rev_xxx (lit "{}")
    = Done (mk_publish [lit "x"; lit "x"; lit "x"] (lit "s")) /\
  finalize str_other_model rev_pad (litq "{^tags^: [^a^]}")
    = Done (mk_publish [lit "a"; lit " b "; lit "c"] (lit "s")) /\
  py_strip (lit " b ") = lit "b".
Proof. vm_compute. repeat split. Qed.

(** C2 (amended): if the reviewer's approved tags are accepted by
    [ReviewerOut], trimmed, and pairwise distinct under [lower()], then for
    every Finalizer dict the repair step returns a Publish result whose tags
    are exactly 3, pairwise distinct under [lower()], non-empty and trimmed. *)
Theorem repair_tags_distinct_trimmed so rev d :
  reviewer_ok rev = true ->
  Forall (fun t => py_strip t = t) (approved_tags rev) ->
  NoDup (map py_lower (approved_tags rev)) ->
  exists p, repair so rev d = Done p /\ length (tags p) = 3 /\
    NoDup (map py_lower (tags p)) /\
    Forall (fun t => t <> [] /\ py_strip t = t) (tags p).
Proof.
  intros Hr Htrim Hnd.
  assert (Hgood : Forall good_tag (approved_tags rev)).
  { unfold reviewer_ok in Hr. apply andb_true_iff in Hr as [_ Hb].
    rewrite forallb_forall in Hb. apply Forall_forall. intros t Ht.
    rewrite Forall_forall in Htrim. split; [|auto].
    intros E. specialize (Hb t Ht). rewrite E in Hb. discriminate. }
  destruct (repair_total so rev d Hr) as [p [Ep [Hok Hp]]].
  exists p. split; [exact Ep|].
  unfold publish_ok in Hok. apply andb_true_iff in Hok as [Hok _].
  apply andb_true_iff in Hok as [Hl _]. apply Nat.eqb_eq in Hl.
  split; [exact Hl|].
  destruct Hp as [Hp|Hp].
  - destruct (repaired_tags_good so rev d Hgood) as [H1 H2]. subst p. simpl. auto.
  - rewrite Hp. auto.
Qed.

Lemma repair_tags_distinct_trimmed_witness :
  exists p, repair str_other_model rev_abc [] = Done p /\ length (tags p) = 3 /\
    NoDup (map py_lower (tags p)) /\
    Forall (fun t => t <> [] /\ py_strip t = t) (tags p).
Proof.
  apply (repair_tags_distinct_trimmed str_other_model rev_abc []).
  - vm_compute. reflexivity.
  - repeat constructor.
  - vm_compute. repeat constructor; simpl; intuition discriminate.
Defined.

(** C3: a summary of 26 tokens whose 25th token is the letter U+00E2 is cut
    to 24 tokens: [rstrip(" ,;:â€”-")] strips that letter, which the
    mis-encoded em dash of the source literal contains.  The repair step
    publishes the 24-token summary. *)
Theorem truncate_summary_24 :
  word_count summary_26 = 26 /\
  truncate_summary summary_26 = join_sp (repeat (lit "a") 24) /\
  word_count (truncate_summary summary_26) = 24 /\
  repair str_other_model rev_abc [(lit "summary", JStr summary_26)]
    = Done (mk_publish (approved_tags rev_abc) (join_sp (repeat (lit "a") 24))).
Proof. vm_compute. repeat split. Qed.

(** C4: [extract_json] returns non-object JSON values through its fast path:
    an array, a number, a string and [null]. *)
Theorem extract_json_non_object :
  extract_json (lit "[1]") = Extracted (JArr [JInt 1%Z]) /\
  extract_json (lit " 42 ") = Extracted (JInt 42%Z) /\
  extract_json (litq "^hi^") = Extracted (JStr (lit "hi")) /\
  extract_json (lit "null") = Extracted JNull.
Proof. vm_compute. repeat split. Qed.








(** C7: [PublishOut(tags=t, summary=s)] succeeds exactly when [t] is a list
    of 3 strings, each non-empty after [strip()], and [s] is a string of at
    most 25 word tokens; every failure is a [ValidationError]; tags equal
    under [lower()] and an empty summary are accepted. *)
Theorem publish_new_iff :
  (forall t s, (exists p, publish_new t s = Done p) <->
     exists l x, t = JArr (map JStr l) /\ s = JStr x /\ length l = 3 /\
       Forall (fun y => py_strip y <> []) l /\ word_count x <= 25) /\
  (forall t s e, publish_new t s = Raised e -> e = ValidationError) /\
  publish_new (JArr (map JStr [lit "Tag"; lit "tag"; lit "TAG"])) (JStr [])
    = Done (mk_publish [lit "Tag"; lit "tag"; lit "TAG"] []).
Proof.
  split; [|split; [exact publish_new_errors | vm_compute; reflexivity]].
  intros t s. split.
  - intros [p Ep]. unfold publish_new in Ep.
    destruct (list_str_field t) as [l|] eqn:Et; [|discriminate].
    destruct (str_field s) as [x|] eqn:Es; [|discriminate].
    destruct ((length l =? 3) && forallb nonblank l && (word_count x <=? 25)) eqn:H;
      [|discriminate].
    apply andb_true_iff in H as [H H3]. apply andb_true_iff in H as [H1 H2].
    exists l, x. repeat split.
    + destruct t; try discriminate. simpl in Et. f_equal.
      clear - Et. revert l Et. induction l0 as [|j l0 IH]; intros l Et; simpl in Et.
      * inversion Et. reflexivity.
      * destruct j; try discriminate. destruct (as_str_list l0) eqn:E0; [|discriminate].
        inversion Et. simpl. f_equal. apply IH. reflexivity.
    + destruct s; try discriminate. simpl in Es. congruence.
    + apply Nat.eqb_eq. exact H1.
    + apply Forall_forall. intros y Hy. rewrite forallb_forall in H2. specialize (H2 y Hy).
      intros E. unfold nonblank in H2. rewrite E in H2. discriminate.
    + apply Nat.leb_le. exact H3.
  - intros [l [x [Et [Es [Hl [Hb Hw]]]]]]. subst. eexists. apply publish_new_ok.
    rewrite Hl. cbn [Nat.eqb andb].
    replace (forallb nonblank l) with true.
    + apply Nat.leb_le. exact Hw.
    + symmetry. apply forallb_forall. intros y Hy. rewrite Forall_forall in Hb.
      unfold nonblank. destruct (py_strip y) eqn:E; [|reflexivity].
      exfalso. apply (Hb y Hy E).
Qed.

(** C8 (counterexample): [PlannerOut] accepts the tag [" a "] and stores it
    untrimmed. *)
Lemma planner_untrimmed_counterexample :
  planner_new (JArr [JStr (lit " a ")]) (JStr [])
    = Done (mk_planner [lit " a "] []) /\
  py_strip (lit " a ") = lit "a".
Proof. vm_compute. split; reflexivity. Qed.

(** C8 (amended): an accepted [PlannerOut] has a non-empty list of tags,
    each non-empty after [strip()], stored exactly as given (untrimmed). *)
Theorem planner_accepted_tags t s p :
  planner_new t s = Done p ->
  proposed_tags p <> [] /\
  Forall (fun x => py_strip x <> []) (proposed_tags p) /\
  t = JArr (map JStr (proposed_tags p)).
Proof.
  unfold planner_new. intros Ep.
  destruct (list_str_field t) as [l|] eqn:Et; [|discriminate].
  destruct (str_field s) as [x|] eqn:Es; [|discriminate].
  destruct (negb (is_nil l) && forallb nonblank l) eqn:H; [|discriminate].
  inversion Ep; subst; simpl. apply andb_true_iff in H as [H1 H2]. repeat split.
  - intros E. subst. discriminate.
  - apply Forall_forall. intros y Hy. rewrite forallb_forall in H2. specialize (H2 y Hy).
    intros E. unfold nonblank in H2. rewrite E in H2. discriminate.
  - destruct t; try discriminate. simpl in Et. f_equal.
    clear - Et. revert l Et. induction l0 as [|j l0 IH]; intros l Et; simpl in Et.
    + inversion Et. reflexivity.
    + destruct j; try discriminate. destruct (as_str_list l0) eqn:E0; [|discriminate].
      inversion Et. simpl. f_equal. apply IH. reflexivity.
Qed.

Lemma planner_accepted_tags_witness :
  planner_new (JArr [JStr (lit " a ")]) (JStr []) = Done (mk_planner [lit " a "] []) /\
  [lit " a "] <> [] /\
  Forall (fun x => py_strip x <> []) [lit " a "] /\
  JArr [JStr (lit " a ")] = JArr (map JStr [lit " a "]).
Proof.
  assert (E : planner_new (JArr [JStr (lit " a ")]) (JStr []) = Done (mk_planner [lit " a "] []))
    by (vm_compute; reflexivity).
  split; [exact E|]. exact (planner_accepted_tags _ _ _ E).
Defined.

(** C9 (counterexample): the Publish result with tags [["```", b, c]] and
    summary ["```"] is valid, but its [json.dumps] text loses everything
    between the two fences to the fence removal of [extract_json], and
    nothing is found. *)
Definition publish_fence : publish := mk_publish [lit "```"; lit "b"; lit "c"] (lit "```").

Lemma publish_roundtrip_counterexample :
  publish_new (JArr (map JStr (tags publish_fence))) (JStr (summary publish_fence))
    = Done publish_fence /\
  extract_json (dumps (publish_dump publish_fence)) = NoJsonFound.
Proof. vm_compute. split; reflexivity. Qed.

(** C9 (amended): if no tag and not the summary of a Publish result
    contains three consecutive backticks, [extract_json] applied to the
    [json.dumps] text of its [model_dump()] returns that same dict. *)
Theorem publish_roundtrip p :
  Forall (fun t => after_fence t = None) (tags p) ->
  after_fence (summary p) = None ->
  extract_json (dumps (publish_dump p)) = Extracted (publish_dump p).
Proof.
  intros Ht Hs. unfold extract_json, strip_fences.
  rewrite strip_fences_id.
  2:{ apply nf_af, nf_dumps_publish.
      - apply forallb_forall. intros t Hin. apply nf_af. rewrite Forall_forall in Ht. auto.
      - apply nf_af, Hs. }
  assert (EB : exists M, dumps (publish_dump p) = chr 123 :: M ++ [chr 125])
    by (eexists; reflexivity).
  destruct EB as [M EM]. rewrite EM, py_strip_braced by reflexivity. rewrite <- EM.
  rewrite loads_dumps by apply jwf_publish. reflexivity.
Qed.

Definition publish_abc : publish :=
  mk_publish [lit "agents"; lit "json"; lit "ollama"] (lit "A tiny \ pipeline, with `ticks`.").

Lemma publish_roundtrip_witness :
  extract_json (dumps (publish_dump publish_abc)) = Extracted (publish_dump publish_abc).
Proof.
  apply publish_roundtrip; [repeat constructor | reflexivity].
Defined.

(** C10 (counterexample): a lone apostrophe is a maximal run of the spec's
    characters but no token, and [a_b] is one token (the underscore is a
    word character) but two runs of alphanumerics. *)
Lemma word_count_counterexample :
  word_count (lit "'") = 0 /\ spec_word_count (lit "'") = 1 /\
  word_count (lit "a_b") = 1 /\ spec_word_count (lit "a_b") = 2.
Proof. vm_compute. repeat split. Qed.

(** C10 (amended): [word_count s], the token count of the [PublishOut] cap,
    and the number of tokens the repair step cuts ([re.findall] with the
    same pattern) all equal the number of maximal runs of [[\w'-]]
    ([\w]: alphanumerics and underscore) that contain a [\w] character. *)
Theorem word_count_is_word_runs s :
  word_count s = word_runs s /\ length (word_tokens s) = word_runs s.
Proof. split; apply word_count_runs. Qed.

(** The Finalizing stage ends with a valid Publish result whenever the
    reviewer result is valid and extraction yields a JSON object or fails. *)
Theorem finalize_total so rev raw :
  reviewer_ok rev = true ->
  (forall v, extract_json raw = Extracted v -> exists d, v = JObj d) ->
  exists p, finalize so rev raw = Done p /\ publish_ok p = true.
Proof.
  intros Hr Hx. unfold finalize.
  destruct (extract_json raw) as [v|] eqn:E.
  - destruct (Hx v eq_refl) as [d ->].
    destruct (repair_total so rev d Hr) as [p [Ep [Hok _]]]. eauto.
  - destruct (repair_total so rev
      [(lit "tags", JArr (map JStr (approved_tags rev)));
       (lit "summary", JStr (edited_summary rev))] Hr) as [p [Ep [Hok _]]]. eauto.
Qed.

Lemma finalize_total_witness :
  exists p, finalize str_other_model rev_abc (lit "noise {} noise") = Done p /\
    publish_ok p = true.
Proof.
  apply (finalize_total str_other_model rev_abc (lit "noise {} noise")).
  - vm_compute. reflexivity.
  - intros v E. vm_compute in E. inversion E. eauto.
Defined.

End Claims.

Module Extras.
Import Strip Joined RepairProps Roundtrip Coverage.

(** X2 ([extract_json]): a value extracted from a text is the fast-path
    result [json.loads] of the stripped, fence-free text, or else it is a
    JSON object: the candidates of the brace scan always start with a brace. *)
Theorem extract_json_scan_object t v : extract_json t = Extracted v ->
  loads (py_strip (strip_fences t)) = Some v \/ exists d, v = JObj d.
Proof.
  unfold extract_json.
  destruct (loads (py_strip (strip_fences t))) as [w|]; [intro H; injection H as <-; auto|].
  destruct (first_loads (candidates (strip_fences t))) as [w|] eqn:E; [|intro H; discriminate].
  intro H; injection H as <-. right.
  apply first_loads_in in E as [c [Hi Hl]].
  apply cands_open in Hi as [c' ->]. eapply loads_open; eauto.
Qed.

Lemma extract_json_scan_object_witness :
  extract_json (litq "Result: {^tags^: [^a^]} ok") = Extracted (JObj [(lit "tags", JArr [JStr (lit "a")])]) /\
  (loads (py_strip (strip_fences (litq "Result: {^tags^: [^a^]} ok")))
     = Some (JObj [(lit "tags", JArr [JStr (lit "a")])]) \/
   exists d, JObj [(lit "tags", JArr [JStr (lit "a")])] = JObj d).
Proof.
  split; [vm_compute; reflexivity|].
  apply extract_json_scan_object. vm_compute. reflexivity.
Defined.

(** X3 ([extract_json]): a fenced block at the head of the text is removed
    before anything is parsed: the text after it is extracted alone, and a
    text that is only a fenced block yields no JSON. *)
Theorem extract_json_leading_fence x r : after_fence (x ++ lit "``") = None ->
  extract_json (lit "```" ++ x ++ lit "```" ++ r) = extract_json r /\
  extract_json (lit "```" ++ x ++ lit "```") = NoJsonFound.
Proof.
  intro H. unfold extract_json. rewrite (strip_fences_lead x r H).
  split; [reflexivity|].
  pose proof (strip_fences_lead x [] H) as E. rewrite app_nil_r in E.
  rewrite E. reflexivity.
Qed.

Lemma extract_json_leading_fence_witness :
  after_fence (litq "json {^a^: 1}" ++ lit "``") = None /\
  (extract_json (lit "```" ++ litq "json {^a^: 1}" ++ lit "```" ++ litq " {^b^: 2}")
     = extract_json (litq " {^b^: 2}") /\
   extract_json (lit "```" ++ litq "json {^a^: 1}" ++ lit "```") = NoJsonFound).
Proof.
  split; [reflexivity|].
  apply extract_json_leading_fence. reflexivity.
Defined.

(** X4 ([word_count]): a character outside [[\w'-]] separates the tokens:
    the count of [a ++ c :: b] is the count of [a] plus the count of [b]. *)
Theorem word_count_split a c b : in_cls c = false ->
  word_count (a ++ c :: b) = word_count a + word_count b.
Proof. exact (wc_split a c b). Qed.

Lemma word_count_split_witness :
  in_cls " "%char = false /\
  word_count (lit "it's" ++ " "%char :: lit "well-known x") = word_count (lit "it's") + word_count (lit "well-known x").
Proof.
  split; [reflexivity|].
  apply word_count_split. reflexivity.
Defined.

(** X5 ([word_count]): extending a text never lowers its word count. *)
Theorem word_count_prefix_le a b : word_count a <= word_count (a ++ b).
Proof. exact (wc_prefix a b). Qed.

(** X6 ([run_pipeline], lines 290-295): the truncated summary has at most
    25 word tokens, and a summary of at most 25 tokens is left unchanged. *)
Theorem truncate_summary_cap s : word_count (truncate_summary s) <= 25 /\
  (word_count s <= 25 -> truncate_summary s = s).
Proof. exact (truncate_cap s). Qed.

(** X7 ([run_pipeline], lines 269-305): when the Reviewer's tags are
    accepted and pairwise distinct under [lower()], the repaired tags are
    exactly three and the first [PublishOut] succeeds, with the repaired tags
    and the truncated summary: the last-resort fallback is never used. *)
Theorem repair_distinct_reviewer so rev d : reviewer_ok rev = true -> NoDup (map py_lower (approved_tags rev)) ->
  length (repaired_tags so rev d) = 3 /\
  repair so rev d = Done (mk_publish (repaired_tags so rev d)
                                      (truncate_summary (summary_source so rev d))).
Proof.
  intros Hr Hd. destruct (repaired_three so rev d Hr Hd) as [L N].
  split; [exact L|]. unfold repair. rewrite publish_new_ok; [reflexivity|].
  rewrite L. cbn [Nat.eqb andb].
  replace (forallb nonblank (repaired_tags so rev d)) with true
    by (symmetry; apply forallb_forall, Forall_forall; exact N).
  apply Nat.leb_le. apply truncate_cap.
Qed.

Lemma repair_distinct_reviewer_witness :
  reviewer_ok (mk_reviewer [lit "Go"; lit "rust"; lit "C"] (lit "s")) = true /\
  NoDup (map py_lower (approved_tags (mk_reviewer [lit "Go"; lit "rust"; lit "C"] (lit "s")))) /\
  (length (repaired_tags str_other_model (mk_reviewer [lit "Go"; lit "rust"; lit "C"] (lit "s"))
             [(lit "tags", JArr [JStr (lit "go"); JStr (lit " ")])]) = 3 /\
   repair str_other_model (mk_reviewer [lit "Go"; lit "rust"; lit "C"] (lit "s"))
     [(lit "tags", JArr [JStr (lit "go"); JStr (lit " ")])]
   = Done (mk_publish
       (repaired_tags str_other_model (mk_reviewer [lit "Go"; lit "rust"; lit "C"] (lit "s"))
          [(lit "tags", JArr [JStr (lit "go"); JStr (lit " ")])])
       (truncate_summary (summary_source str_other_model
          (mk_reviewer [lit "Go"; lit "rust"; lit "C"] (lit "s"))
          [(lit "tags", JArr [JStr (lit "go"); JStr (lit " ")])])))).
Proof.
  assert (Hd : NoDup (map py_lower (approved_tags (mk_reviewer [lit "Go"; lit "rust"; lit "C"] (lit "s"))))).
  { vm_compute. repeat constructor; vm_compute; intuition discriminate. }
  split; [reflexivity|]. split; [exact Hd|].
  apply repair_distinct_reviewer; [reflexivity|exact Hd].
Defined.

(** X8 ([run_pipeline], lines 269-288): when the Finalizer's [tags] is a
    list of strings whose first three are non-empty after [strip()] and
    distinct under [lower()] once stripped, the repaired tags are those three,
    stripped, in their order. *)
Theorem repaired_tags_first_three so rev d a b c rest :
  dict_get d (lit "tags") = Some (JArr (map JStr (a :: b :: c :: rest))) ->
  py_strip a <> [] -> py_strip b <> [] -> py_strip c <> [] ->
  NoDup (map py_lower [py_strip a; py_strip b; py_strip c]) ->
  repaired_tags so rev d = [py_strip a; py_strip b; py_strip c].
Proof.
  intros Ht Ha Hb Hc Hd. cbn [map] in Hd.
  inversion Hd as [|? ? Na Hd1]; subst. inversion Hd1 as [|? ? Nb Hd2]; subst.
  cbn [In] in Na, Nb.
  unfold repaired_tags, tags_candidates. rewrite Ht. cbn [map]. cbn [truthy is_nil negb].
  rewrite (dedup_keep so (JStr a)) by (cbn [In str_of]; intuition congruence).
  rewrite (dedup_keep so (JStr b)) by (cbn [In str_of]; intuition congruence).
  rewrite (dedup_keep so (JStr c)) by (cbn [In str_of]; intuition congruence).
  cbn [str_of app].
  destruct (dedup_prefix so (map JStr rest)
              [py_lower (py_strip c); py_lower (py_strip b); py_lower (py_strip a)]
              [py_strip a; py_strip b; py_strip c]) as [e E].
  destruct (dedup so (map JStr rest) _ _) as [s u]. cbn [snd] in E. subst u.
  reflexivity.
Qed.

Lemma repaired_tags_first_three_witness :
  dict_get [(lit "tags", JArr (map JStr [lit " A "; lit "b"; lit "c"; lit "a"]))] (lit "tags")
    = Some (JArr (map JStr [lit " A "; lit "b"; lit "c"; lit "a"])) /\
  py_strip (lit " A ") <> [] /\ py_strip (lit "b") <> [] /\ py_strip (lit "c") <> [] /\
  NoDup (map py_lower [py_strip (lit " A "); py_strip (lit "b"); py_strip (lit "c")]) /\
  repaired_tags str_other_model (mk_reviewer [lit "x"; lit "y"; lit "z"] (lit "s"))
    [(lit "tags", JArr (map JStr [lit " A "; lit "b"; lit "c"; lit "a"]))]
  = [py_strip (lit " A "); py_strip (lit "b"); py_strip (lit "c")].
Proof.
  assert (Ha : py_strip (lit " A ") <> []) by (vm_compute; discriminate).
  assert (Hb : py_strip (lit "b") <> []) by (vm_compute; discriminate).
  assert (Hc : py_strip (lit "c") <> []) by (vm_compute; discriminate).
  assert (Hd : NoDup (map py_lower [py_strip (lit " A "); py_strip (lit "b"); py_strip (lit "c")])).
  { vm_compute. repeat constructor; vm_compute; intuition discriminate. }
  split; [reflexivity|]. split; [exact Ha|]. split; [exact Hb|]. split; [exact Hc|].
  split; [exact Hd|].
  apply (repaired_tags_first_three str_other_model _ _ (lit " A ") (lit "b") (lit "c") [lit "a"]);
    [reflexivity|exact Ha|exact Hb|exact Hc|exact Hd].
Defined.

(** X9 ([run_pipeline], lines 269-305): every tag the repair step
    publishes is the stripped [str()] of an entry of the tags source or one
    of the Reviewer's approved tags. *)
Theorem repair_tags_provenance so rev d p : repair so rev d = Done p ->
  Forall (fun t => In t (map (fun v => py_strip (str_of so v)) (tags_candidates so rev d)) \/
                   In t (approved_tags rev)) (tags p).
Proof.
  unfold repair.
  destruct (publish_new (JArr (map JStr (repaired_tags so rev d)))
              (JStr (truncate_summary (summary_source so rev d)))) as [p0|[|]] eqn:E1;
    intro H.
  - injection H as <-. apply publish_new_spec in E1 as [-> _]. apply repaired_src.
  - apply publish_new_spec in H as [-> _]. cbn [tags].
    destruct (negb (is_nil (approved_tags rev))).
    + apply firstn_Forall, Forall_forall. intros t Ht. right. exact Ht.
    + apply firstn_Forall, repaired_src.
  - discriminate.
Qed.

Lemma repair_tags_provenance_witness :
  repair str_other_model (mk_reviewer [lit "x"; lit "y"; lit "z"] (lit "s"))
    [(lit "tags", JArr [JStr (lit " a "); JInt 7; JStr (lit "A")])]
  = Done (mk_publish [lit "a"; lit "7"; lit "x"] (lit "s")) /\
  Forall (fun t => In t (map (fun v => py_strip (str_of str_other_model v))
                          (tags_candidates str_other_model (mk_reviewer [lit "x"; lit "y"; lit "z"] (lit "s"))
                             [(lit "tags", JArr [JStr (lit " a "); JInt 7; JStr (lit "A")])])) \/
                   In t (approved_tags (mk_reviewer [lit "x"; lit "y"; lit "z"] (lit "s"))))
    (tags (mk_publish [lit "a"; lit "7"; lit "x"] (lit "s"))).
Proof.
  split; [vm_compute; reflexivity|].
  apply repair_tags_provenance. vm_compute. reflexivity.
Defined.

(** X10 ([run_pipeline], lines 232, 253-254 and 308): the JSON text of
    [model_dump()] of any Planner, Reviewer or Publish result is read back by
    [json.loads] as the same object. *)
Theorem model_dump_roundtrip pl rv pb :
  loads (dumps (planner_dump pl)) = Some (planner_dump pl) /\
  loads (dumps (reviewer_dump rv)) = Some (reviewer_dump rv) /\
  loads (dumps (publish_dump pb)) = Some (publish_dump pb).
Proof.
  split; [|split]; apply loads_dumps;
    [unfold planner_dump|unfold reviewer_dump|apply jwf_publish];
    simpl; rewrite andb_true_r; apply jwf_strs.
Qed.



(** X12 ([run_pipeline]): once the Planner and Reviewer replies are
    accepted, the run aborts exactly when [extract_json] on the Finalizer
    reply yields a value that is not an object, and then with
    [AttributeError]. *)
Theorem run_pipeline_final_errors so pr rr fr pl rv e :
  stage planner_kwargs pr = Accepted pl -> stage reviewer_kwargs rr = Accepted rv ->
  (run_pipeline so pr rr fr = Aborted e <->
   e = PyRaised AttributeError /\
   exists v, extract_json fr = Extracted v /\ forall d, v <> JObj d).
Proof.
  intros Hp Hr. pose proof (reviewer_stage_ok rr rv Hr) as Ok.
  unfold run_pipeline. rewrite Hp, Hr. unfold finalize.
  destruct (extract_json fr) as [v|].
  - destruct v as [| | | | | |d];
      try (split; [intro H; injection H as <-; split; [reflexivity|]; eexists; split;
                   [reflexivity|discriminate]
                  |intros [-> _]; reflexivity]).
    destruct (repair_total so rv d Ok) as [p [Ep _]]. rewrite Ep. split; [discriminate|].
    intros [_ [v [Ev Hv]]]. injection Ev as <-. exfalso. apply (Hv d). reflexivity.
  - match goal with |- context [repair so rv ?d] =>
      destruct (repair_total so rv d Ok) as [p [Ep _]]; rewrite Ep
    end. split; [discriminate|].
    intros [_ [v [Ev _]]]. discriminate.
Qed.

Lemma run_pipeline_final_errors_witness :
  stage planner_kwargs (litq "{^proposed_tags^: [^a^], ^draft_summary^: ^d^}")
    = Accepted (mk_planner [lit "a"] (lit "d")) /\
  stage reviewer_kwargs (litq "{^approved_tags^: [^x^, ^y^, ^z^], ^edited_summary^: ^s^}")
    = Accepted (mk_reviewer [lit "x"; lit "y"; lit "z"] (lit "s")) /\
  (run_pipeline str_other_model
     (litq "{^proposed_tags^: [^a^], ^draft_summary^: ^d^}")
     (litq "{^approved_tags^: [^x^, ^y^, ^z^], ^edited_summary^: ^s^}")
     (lit "[1]") = Aborted (PyRaised AttributeError) <->
   PyRaised AttributeError = PyRaised AttributeError /\
   exists v, extract_json (lit "[1]") = Extracted v /\ forall d, v <> JObj d).
Proof.
  assert (Hp : stage planner_kwargs (litq "{^proposed_tags^: [^a^], ^draft_summary^: ^d^}")
    = Accepted (mk_planner [lit "a"] (lit "d"))) by (vm_compute; reflexivity).
  assert (Hr : stage reviewer_kwargs (litq "{^approved_tags^: [^x^, ^y^, ^z^], ^edited_summary^: ^s^}")
    = Accepted (mk_reviewer [lit "x"; lit "y"; lit "z"] (lit "s"))) by (vm_compute; reflexivity).
  split; [exact Hp|]. split; [exact Hr|].
  exact (run_pipeline_final_errors str_other_model _ _ (lit "[1]") _ _ (PyRaised AttributeError) Hp Hr).
Defined.

End Extras.
